(** * termninja: the connection lifecycle and matchmaking engine

    A shallow embedding of [core/termninja/server.py]: the [Server] class,
    its two mixins and the composed [TermninjaServer].  Coroutines are
    functions in a state-and-exception monad over a [World] that holds the
    event loop's tasks, the player queue, the calls made into the
    collaborators that are not part of the file (players, persistence,
    controllers) and the environment's future behaviour (signals, peer
    resets, input lines). *)

From Stdlib Require Import String DecimalString ZArith Lia Bool Arith PeanoNat List.
Import ListNotations.
Local Open Scope list_scope.

Set Implicit Arguments.

(** ** Values *)

(** The exceptions that travel through the code of the file. *)
Inductive exn : Type :=
| ConnectionResetError
| CancelledError
| AttributeError (name : string)
| OSError (what : string).

(** A client session.  [Player(reader, writer)] wraps one connection, which
    is what identifies it. *)
Definition Player : Type := nat.

(** A row of the users table, as far as the server reads it. *)
Record User : Type := mkUser {
  username : string;
  score : Z;
  play_token_expires_at : Z
}.

Inductive signame : Type := SIGINT | SIGTERM.

Definition signame_str (s : signame) : string :=
  match s with SIGINT => "SIGINT" | SIGTERM => "SIGTERM" end.

Definition signame_eqb (a b : signame) : bool :=
  match a, b with
  | SIGINT, SIGINT | SIGTERM, SIGTERM => true
  | _, _ => false
  end.

(** What calling [controller_class] on the players and the friendly name
    builds. *)
Record Controller : Type := mkController {
  controller_players : list Player;
  server_friendly_name : string
}.

(** The dictionary handed to [db.games.create_or_update_game]. *)
Record GameFields : Type := mkGameFields {
  gf_server_name : string;
  gf_description : string;
  gf_port : Z
}.

(** The coroutines that the file wraps into tasks. *)
Inductive Coro : Type :=
| StartServing                          (* asyncio.run(self._start_serving()) *)
| ServerTask                            (* self._server_task() *)
| StartGameTask                         (* self._start_game_task() *)
| OnConnection (p : Player)             (* the callback given to start_server *)
| LaunchGame (players : list Player)    (* self._launch_game on the players *)
| ControllerStart (c : Controller)      (* controller.start() *)
| UpdateDatabaseTask.                   (* self._update_database_task() *)

(** A task of the event loop.  [cancel_requested] is the cancellation that
    [Task.cancel] has asked for and that the task has not yet received. *)
Record Task : Type := mkTask {
  coro : Coro;
  cancel_requested : bool;
  finished : bool
}.

(** Calls made into the collaborators, in the order they are made. *)
Inductive Event : Type :=
| Print (text : string)
| AddSignalHandler (s : signame)
| DbConnect
| DbDisconnect
| Send (p : Player) (msg : string)
| Readline (p : Player)
| Close (p : Player)
| AssignDbUser (p : Player) (u : User)
| SelectByPlayToken (token : string)
| CreateOrUpdateGame (slug : string) (fields : GameFields)
| UpdateGame (slug : string)
| Sleep (seconds : Z)
| NewController (c : Controller).

(** ** The world *)

Record World : Type := mkWorld {
  trace : list Event;              (* calls made so far, oldest first *)
  player_queue : list Player;      (* self._player_queue, head is next out *)
  tasks : list Task;               (* every task of the loop, in creation order *)
  current : nat;                   (* the task that is running, an index in tasks *)
  signal_handlers : list signame;  (* loop.add_signal_handler registrations *)
  signals : list (list signame);   (* signals arriving during the next await, the one after, ... *)
  resets : list bool;              (* whether the peer hangs up at the next player I/O, ... *)
  lines : list string;             (* the lines the peers will send *)
  users : list (string * User);    (* persistence: play token -> user *)
  now : Z;                         (* datetime.datetime.now() *)
  db_connected : bool;             (* the persistence connection is open *)
  db_user : list (Player * User);  (* identities attached by assign_db_user *)
  core_failure : option exn;       (* the error with which a core task dies, if one does *)
  sigint_first : bool              (* the order in which the set of the two signal names is visited *)
}.

Definition with_trace (f : list Event -> list Event) (w : World) : World :=
  mkWorld (f (trace w)) (player_queue w) (tasks w) (current w)
          (signal_handlers w) (signals w) (resets w) (lines w) (users w)
          (now w) (db_connected w) (db_user w) (core_failure w) (sigint_first w).

Definition with_player_queue (f : list Player -> list Player) (w : World) : World :=
  mkWorld (trace w) (f (player_queue w)) (tasks w) (current w)
          (signal_handlers w) (signals w) (resets w) (lines w) (users w)
          (now w) (db_connected w) (db_user w) (core_failure w) (sigint_first w).

Definition with_tasks (f : list Task -> list Task) (w : World) : World :=
  mkWorld (trace w) (player_queue w) (f (tasks w)) (current w)
          (signal_handlers w) (signals w) (resets w) (lines w) (users w)
          (now w) (db_connected w) (db_user w) (core_failure w) (sigint_first w).

Definition with_signal_handlers (f : list signame -> list signame) (w : World) : World :=
  mkWorld (trace w) (player_queue w) (tasks w) (current w)
          (f (signal_handlers w)) (signals w) (resets w) (lines w) (users w)
          (now w) (db_connected w) (db_user w) (core_failure w) (sigint_first w).

Definition with_signals (s : list (list signame)) (w : World) : World :=
  mkWorld (trace w) (player_queue w) (tasks w) (current w)
          (signal_handlers w) s (resets w) (lines w) (users w)
          (now w) (db_connected w) (db_user w) (core_failure w) (sigint_first w).

Definition with_resets (r : list bool) (w : World) : World :=
  mkWorld (trace w) (player_queue w) (tasks w) (current w)
          (signal_handlers w) (signals w) r (lines w) (users w)
          (now w) (db_connected w) (db_user w) (core_failure w) (sigint_first w).

Definition with_lines (l : list string) (w : World) : World :=
  mkWorld (trace w) (player_queue w) (tasks w) (current w)
          (signal_handlers w) (signals w) (resets w) l (users w)
          (now w) (db_connected w) (db_user w) (core_failure w) (sigint_first w).

Definition with_users (u : list (string * User)) (w : World) : World :=
  mkWorld (trace w) (player_queue w) (tasks w) (current w)
          (signal_handlers w) (signals w) (resets w) (lines w) u
          (now w) (db_connected w) (db_user w) (core_failure w) (sigint_first w).

Definition with_db_connected (b : bool) (w : World) : World :=
  mkWorld (trace w) (player_queue w) (tasks w) (current w)
          (signal_handlers w) (signals w) (resets w) (lines w) (users w)
          (now w) b (db_user w) (core_failure w) (sigint_first w).

Definition with_db_user (f : list (Player * User) -> list (Player * User))
    (w : World) : World :=
  mkWorld (trace w) (player_queue w) (tasks w) (current w)
          (signal_handlers w) (signals w) (resets w) (lines w) (users w)
          (now w) (db_connected w) (f (db_user w)) (core_failure w) (sigint_first w).

(** ** Coroutines *)

(** How a coroutine leaves the processor: with a value, with an exception,
    suspended on something that has not come yet, or still running when the
    observation ends. *)
Inductive Res (A : Type) : Type :=
| Ok (a : A)
| Raise (e : exn)
| Suspended
| OutOfFuel.

Arguments Ok {A} a.
Arguments Raise {A} e.
Arguments Suspended {A}.
Arguments OutOfFuel {A}.

Definition M (A : Type) : Type := World -> Res A * World.

Definition ret {A} (a : A) : M A := fun w => (Ok a, w).

Definition raise {A} (e : exn) : M A := fun w => (Raise e, w).

Definition bind {A B} (m : M A) (k : A -> M B) : M B :=
  fun w =>
    match m w with
    | (Ok a, w') => k a w'
    | (Raise e, w') => (Raise e, w')
    | (Suspended, w') => (Suspended, w')
    | (OutOfFuel, w') => (OutOfFuel, w')
    end.

Declare Scope coro_scope.
Delimit Scope coro_scope with coro.
Notation "x <- m ;; k" := (bind m (fun x => k))
  (at level 100, m at next level, right associativity) : coro_scope.
Notation "m ;; k" := (bind m (fun _ => k))
  (at level 100, right associativity) : coro_scope.
Local Open Scope coro_scope.

Definition exn_eqb (a b : exn) : bool :=
  match a, b with
  | ConnectionResetError, ConnectionResetError => true
  | CancelledError, CancelledError => true
  | AttributeError x, AttributeError y => String.eqb x y
  | OSError x, OSError y => String.eqb x y
  | _, _ => false
  end.

(** [try: body / except E: handler].  A coroutine that is suspended is still
    inside the [try]: nothing is handled. *)
Definition try_except {A} (body : M A) (E : exn) (handler : M A) : M A :=
  fun w =>
    match body w with
    | (Raise e, w') => if exn_eqb e E then handler w' else (Raise e, w')
    | other => other
    end.

(** [try: body / finally: final].  The final block runs when the body
    returns or raises; an exception of the final block replaces the body's
    outcome. *)
Definition try_finally {A} (body : M A) (final : M unit) : M A :=
  fun w =>
    match body w with
    | (Ok a, w') => bind final (fun _ => ret a) w'
    | (Raise e, w') => bind final (fun _ => raise e) w'
    | other => other
    end.

Definition modify (f : World -> World) : M unit := fun w => (Ok tt, f w).

Definition call (e : Event) : M unit := modify (with_trace (fun t => t ++ [e])).

Definition print (text : string) : M unit := call (Print text).

(** ** asyncio *)

(** [Task.cancel]: a task that is done refuses, any other task gets a
    cancellation request, which it receives at its next suspension point. *)
Definition Task_cancel (t : Task) : Task :=
  if finished t then t else mkTask (coro t) true (finished t).

Definition Task_uncancel (t : Task) : Task :=
  mkTask (coro t) false (finished t).

Fixpoint update_nth {A} (n : nat) (f : A -> A) (l : list A) : list A :=
  match l, n with
  | [], _ => []
  | x :: l', 0 => f x :: l'
  | x :: l', S n' => x :: update_nth n' f l'
  end.

(** [asyncio.create_task]: the coroutine becomes a task of the loop and the
    caller goes on without waiting for it. *)
Definition create_task (c : Coro) : M unit :=
  modify (with_tasks (fun ts => ts ++ [mkTask c false false])).

Module Signals.

(** [Server._handle_stop_signal], a plain function that the loop calls when
    a registered signal arrives. *)
Definition _handle_stop_signal (signal : signame) : M unit :=
  print ("[!] Recieved " ++ signame_str signal)%string ;;
  modify (with_tasks (map Task_cancel)).

(** The loop calls the handler of a signal that has one. *)
Definition deliver (w : World) (s : signame) : World :=
  if existsb (signame_eqb s) (signal_handlers w)
  then snd (_handle_stop_signal s w)
  else w.

(** The signals that arrive while the running task is suspended. *)
Definition arrivals (w : World) : World :=
  match signals w with
  | [] => w
  | arriving :: later => fold_left deliver arriving (with_signals later w)
  end.

End Signals.

(** A suspension point of the running task: the loop takes over, handles
    the signals that arrive, and resumes the task, with [CancelledError]
    when its cancellation was requested. *)
Definition suspend : M unit :=
  fun w =>
    let w1 := Signals.arrivals w in
    match nth_error (tasks w1) (current w1) with
    | Some t =>
        if cancel_requested t
        then (Raise CancelledError,
              with_tasks (update_nth (current w1) Task_uncancel) w1)
        else (Ok tt, w1)
    | None => (Ok tt, w1)
    end.

(** [await asyncio.gather(server_task, start_games_task)]: both tasks loop
    for ever, so the wait ends only by cancellation or by the failure of one
    of them. *)
Definition asyncio_gather (awaited : list Coro) : M unit :=
  suspend ;;
  fun w =>
    match core_failure w with
    | Some e => (Raise e, w)
    | None => (Suspended, w)
    end.

Definition asyncio_sleep (seconds : Z) : M unit :=
  call (Sleep seconds) ;; suspend.

(** [Queue.put] on a queue without bound never waits. *)
Definition queue_put (p : Player) : M unit :=
  modify (with_player_queue (fun q => q ++ [p])).

(** [Queue.get] returns the head at once when there is one and waits
    otherwise. *)
Definition queue_get : M Player :=
  fun w =>
    match player_queue w with
    | [] => (Suspended, w)
    | p :: q => (Ok p, with_player_queue (fun _ => q) w)
    end.

(** ** Collaborators outside the file *)

Module player.

(** Modelled from the spec: the Player class of the player module is not in
    the source.  The spec gives a client session line-based read and write
    over its transport; a peer that has hung up shows as
    [ConnectionResetError] at the next read or write. *)
Definition link : M unit :=
  fun w =>
    match resets w with
    | [] => (Ok tt, w)
    | true :: r => (Raise ConnectionResetError, with_resets r w)
    | false :: r => (Ok tt, with_resets r w)
    end.

Definition send (p : Player) (msg : string) : M unit :=
  call (Send p msg) ;; suspend ;; link.

Definition readline (p : Player) : M string :=
  call (Readline p) ;; suspend ;; link ;;
  fun w =>
    match lines w with
    | [] => (Ok EmptyString, w)
    | l :: ls => (Ok l, with_lines ls w)
    end.

Definition close (p : Player) : M unit := call (Close p).

Definition assign_db_user (p : Player) (u : User) : M unit :=
  call (AssignDbUser p u) ;; modify (with_db_user (cons (p, u))).

Fixpoint identity (p : Player) (ids : list (Player * User)) : option User :=
  match ids with
  | [] => None
  | (q, u) :: ids' => if Nat.eqb p q then Some u else identity p ids'
  end.

End player.

Module db.

(** Modelled from the spec: the persistence service is an external
    collaborator; only the calls of its interface are known. *)
Definition conn_connect : M unit :=
  call DbConnect ;; suspend ;; modify (with_db_connected true).

Definition conn_disconnect : M unit :=
  call DbDisconnect ;; suspend ;; modify (with_db_connected false).

Fixpoint find_token (token : string) (table : list (string * User)) : option User :=
  match table with
  | [] => None
  | (t, u) :: table' => if String.eqb token t then Some u else find_token token table'
  end.

Definition users_select_by_play_token (token : string) : M (option User) :=
  call (SelectByPlayToken token) ;; suspend ;;
  fun w => (Ok (find_token token (users w)), w).

Definition games_create_or_update_game (slug : string) (fields : GameFields) : M unit :=
  call (CreateOrUpdateGame slug fields) ;; suspend.

Definition games_update_game (slug : string) : M unit :=
  call (UpdateGame slug) ;; suspend.

End db.

(** The terminal escapes of the cursor module, which is not in the source. *)
Record Cursor : Type := mkCursor {
  CLEAR : string;
  GREEN : string;
  RESET : string;
  ERASE_TO_LINE_END : string;
  up : nat -> string;
  move_to_column : nat -> string;
  green : string -> string;
  red : string -> string;
  blue : string -> string
}.

(** What the file imports from elsewhere and only calls. *)
Class Imports : Type := mkImports {
  cursor : Cursor;
  slugify : string -> string
}.

(** ** Objects *)

(** The attributes of a server object.  Those that class Server binds and
    its subclasses are meant to rebind are fields, and so are the two names
    that the file reads but no class of the file binds.  The class
    attributes of the two mixins are read through [self] as well; no class
    of the file rebinds them and they are constants of their modules. *)
Record Self : Type := mkSelf {
  class_name : string;             (* self.__class__.__name__ *)
  HOST : string;
  welcome_message : string;
  continuation_message : string;
  player_count : nat;
  description : string;
  port : Z;                        (* set by start from the arguments *)
  friendly_name : option string;   (* the attribute, on an object that has it *)
  friendly_name_method : option string
    (* what a method get_friendly_name returns, on an object whose class
       binds one *)
}.

(** The names that the three class bodies bind, in the order of the file. *)
Definition Server_names : list string :=
  ["HOST"; "welcome_message"; "continuation_message"; "controller_class";
   "player_count"; "description"; "start"; "get_controller_class";
   "get_server_name"; "on_server_started"; "on_player_connected";
   "should_accept_player"; "on_player_accepted"; "on_player_rejected";
   "_start_serving"; "_register_signal_handlers"; "_handle_stop_signal";
   "_initialize"; "_teardown"; "_server_task"; "_on_connection";
   "_accept_player"; "_start_game_task"; "_launch_game"]%string.

Definition OptionalAuthenticationMixin_names : list string :=
  ["enter_token_prompt"; "erase_input"; "token_accepted_message";
   "token_rejected_message"; "token_expired_message"; "token_is_expired";
   "should_accept_player"; "on_player_accepted"]%string.

Definition PingDatabaseMixin_names : list string :=
  ["ping_database_interval"; "on_server_started"; "_update_database_task";
   "ping_database"]%string.

(** The hook surface: the methods that a class of the chain may override,
    as the object resolves them. *)
Module Hook.
Record t : Type := mk {
  on_server_started : M unit;
  on_player_connected : Player -> M unit;
  should_accept_player : Player -> M bool;
  on_player_accepted : Player -> M unit;
  on_player_rejected : Player -> M unit
}.
End Hook.

Definition nl : string := String (Ascii.ascii_of_nat 10) EmptyString.

Definition str_of_nat (n : nat) : string :=
  DecimalString.NilEmpty.string_of_uint (Nat.to_uint n).

Definition str_of_Z (z : Z) : string :=
  DecimalString.NilZero.string_of_int (Z.to_int z).

Definition WELCOME_MSG `{Imports} : string :=
  (nl ++ CLEAR cursor ++ GREEN cursor ++ nl ++ nl
   ++ "   _____                   _   _ _       _       " ++ nl
   ++ "  |_   _|                 | \ | (_)     (_)      " ++ nl
   ++ "    | | ___ _ __ _ __ ___ |  \| |_ _ __  _  __ _ " ++ nl
   ++ "    | |/ _ \ '__| '_ ` _ \| . ` | | '_ \| |/ _` |" ++ nl
   ++ "    | |  __/ |  | | | | | | |\  | | | | | | (_| |" ++ nl
   ++ "    \_/\___|_|  |_| |_| |_\_| \_/_|_| |_| |\__,_|" ++ nl
   ++ "                                        / |      " ++ nl
   ++ "                                       |__/" ++ nl ++ nl
   ++ RESET cursor ++ nl)%string.

(** ** class Server *)

Module Server.

(** [controller_class = Controller]; the Controller class is not in the
    source, building one is recorded as a call. *)
Definition controller_class (players : list Player) (name : string) : M Controller :=
  let c := mkController players name in
  call (NewController c) ;; ret c.

Definition get_controller_class (self : Self) :
    list Player -> string -> M Controller :=
  controller_class.

(** [getattr(self, 'friendly_name', self.__class__.__name__)] *)
Definition get_server_name (self : Self) : string :=
  match friendly_name self with
  | Some name => name
  | None => class_name self
  end.

Definition on_server_started : M unit := ret tt.

Definition on_player_connected (self : Self) (p : Player) : M unit :=
  player.send p (welcome_message self).

Definition should_accept_player (p : Player) : M bool := ret true.

Definition on_player_accepted (self : Self) (p : Player) : M unit :=
  player.send p (continuation_message self) ;;
  _ <- player.readline p ;;
  ret tt.

Definition on_player_rejected (p : Player) : M unit := ret tt.

Definition hooks (self : Self) : Hook.t :=
  Hook.mk on_server_started (on_player_connected self) should_accept_player
          (on_player_accepted self) on_player_rejected.

(** The set literal of the two signal names.  The order in which a set of
    strings is visited follows the hash seed of the interpreter; the world
    holds which of the two orders it is. *)
Definition stop_signals : M (list signame) :=
  fun w =>
    (Ok (if sigint_first w then [SIGINT; SIGTERM] else [SIGTERM; SIGINT]), w).

(** [loop.add_signal_handler] for the signal of a name. *)
Definition add_signal_handler (s : signame) : M unit :=
  call (AddSignalHandler s) ;;
  modify (with_signal_handlers (cons s)).

(** [for x in l: body] *)
Fixpoint for_each {A} (l : list A) (body : A -> M unit) : M unit :=
  match l with
  | [] => ret tt
  | x :: l' => body x ;; for_each l' body
  end.

Definition _register_signal_handlers : M unit :=
  names <- stop_signals ;;
  for_each names add_signal_handler.

Definition _handle_stop_signal : signame -> M unit :=
  Signals._handle_stop_signal.

Definition _initialize : M unit :=
  db.conn_connect ;;
  modify (with_player_queue (fun _ => [])).

Definition _teardown : M unit := db.conn_disconnect.

(** The body of the [try] of [_start_serving]. *)
Definition serving (cls : Hook.t) : M unit :=
  create_task ServerTask ;;
  create_task StartGameTask ;;
  Hook.on_server_started cls ;;
  asyncio_gather [ServerTask; StartGameTask].

Definition _start_serving (cls : Hook.t) : M unit :=
  _register_signal_handlers ;;
  _initialize ;;
  try_finally
    (try_except (serving cls) CancelledError (ret tt))
    _teardown.

Definition _accept_player (cls : Hook.t) (p : Player) : M unit :=
  accept <- Hook.should_accept_player cls p ;;
  if accept : bool
  then Hook.on_player_accepted cls p ;; queue_put p
  else Hook.on_player_rejected cls p ;; player.close p.

Definition _on_connection (cls : Hook.t) (p : Player) : M unit :=
  print ("[+] connection:  " ++ str_of_nat p)%string ;;
  try_except
    (Hook.on_player_connected cls p ;; _accept_player cls p)
    ConnectionResetError
    (player.close p).

(** [self.get_friendly_name()]: no class of the file binds the name, so the
    lookup finds a method only on an object that got one from elsewhere. *)
Definition get_friendly_name (self : Self) : M string :=
  match friendly_name_method self with
  | Some name => ret name
  | None => raise (AttributeError "get_friendly_name")
  end.

Definition _launch_game (self : Self) (players : list Player) : M unit :=
  let controller_class := get_controller_class self in
  name <- get_friendly_name self ;;
  controller <- controller_class players name ;;
  create_task (ControllerStart controller).

(** One turn of the loop of [_start_game_task], from the players that the
    list comprehension holds: while the range is not exhausted it awaits
    the next player of the queue; when it is, the list goes to a new task
    and the loop starts an empty list. *)
Definition _start_game_task_turn (self : Self) (got : list Player) : M (list Player) :=
  if List.length got <? player_count self
  then p <- queue_get ;; ret (got ++ [p])
  else create_task (LaunchGame got) ;; ret [].

(** The loop runs until the queue makes it wait; the result is the list that
    the comprehension holds at that point and the world then, and nothing
    when the loop is still running after [fuel] turns. *)
Fixpoint _start_game_task (self : Self) (fuel : nat) (got : list Player)
    (w : World) : option (list Player * World) :=
  match fuel with
  | 0 => None
  | S fuel' =>
      match _start_game_task_turn self got w with
      | (Ok got', w') => _start_game_task self fuel' got' w'
      | (Suspended, w') => Some (got, w')
      | _ => None
      end
  end.

End Server.

(** ** class OptionalAuthenticationMixin *)

Module OptionalAuthenticationMixin.

Definition enter_token_prompt : string :=
  "Enter a token to track score or press enter to play anonymously: ".

Definition erase_input `{Imports} : string :=
  (up cursor 1
   ++ move_to_column cursor (String.length enter_token_prompt)
   ++ ERASE_TO_LINE_END cursor)%string.

Definition token_accepted_message `{Imports} : string :=
  (erase_input ++ green cursor " accepted" ++ nl)%string.

Definition token_rejected_message `{Imports} : string :=
  (erase_input ++ red cursor " rejected" ++ nl)%string.

Definition token_expired_message `{Imports} : string :=
  (erase_input ++ red cursor " token expired" ++ nl)%string.

(** [expiration_datetime < datetime.datetime.now()] *)
Definition token_is_expired (expiration_datetime : Z) : M bool :=
  fun w => (Ok (expiration_datetime <? now w)%Z, w).

Definition should_accept_player `{Imports} (p : Player) : M bool :=
  player.send p enter_token_prompt ;;
  token <- player.readline p ;;
  if String.eqb token "" then
    (* play anonymously *)
    ret true
  else
    user <- db.users_select_by_play_token token ;;
    match user with
    | None =>
        (* invalid token *)
        player.send p token_rejected_message ;;
        ret false
    | Some u =>
        expired <- token_is_expired (play_token_expires_at u) ;;
        if expired : bool then
          (* expired token *)
          player.send p token_expired_message ;;
          ret false
        else
          (* accepted token *)
          player.send p token_accepted_message ;;
          player.assign_db_user p u ;;
          ret true
    end.

(** Modelled from the spec: the attributes that the Player class shows for
    its identity are not in the source; a session without identity shows
    [None]. *)
Definition shown (field : User -> string) (u : option User) : string :=
  match u with
  | Some u => field u
  | None => "None"
  end.

Definition account `{Imports} (u : option User) : string :=
  (nl
   ++ "username:         " ++ green cursor (shown username u) ++ nl
   ++ "score:            "
   ++ green cursor (shown (fun u => str_of_Z (score u)) u) ++ nl
   ++ "token expires in: "
   ++ green cursor (shown (fun u => str_of_Z (play_token_expires_at u)) u)
   ++ nl ++ nl)%string.

Definition on_player_accepted `{Imports} (super : Hook.t) (p : Player) : M unit :=
  (fun w => player.send p (account (player.identity p (db_user w))) w) ;;
  Hook.on_player_accepted super p.

Definition hooks `{Imports} (super : Hook.t) : Hook.t :=
  Hook.mk (Hook.on_server_started super)
          (Hook.on_player_connected super)
          should_accept_player
          (on_player_accepted super)
          (Hook.on_player_rejected super).

End OptionalAuthenticationMixin.

(** ** class PingDatabaseMixin *)

Module PingDatabaseMixin.

Definition ping_database_interval : Z := 2 * 60.

Definition ping_database (slug : string) : M unit :=
  db.games_update_game slug.

(** The [while True] of [_update_database_task], observed for [fuel]
    rounds. *)
Fixpoint pinging (fuel : nat) (slug : string) : M unit :=
  match fuel with
  | 0 => fun w => (OutOfFuel, w)
  | S fuel' =>
      ping_database slug ;;
      asyncio_sleep ping_database_interval ;;
      pinging fuel' slug
  end.

Definition _update_database_task `{Imports} (self : Self) (fuel : nat) : M unit :=
  let server_name := Server.get_server_name self in
  let slug := slugify server_name in
  db.games_create_or_update_game slug
    (mkGameFields server_name (description self) (port self)) ;;
  pinging fuel slug.

Definition on_server_started (super : Hook.t) : M unit :=
  create_task UpdateDatabaseTask ;;
  Hook.on_server_started super.

Definition hooks (super : Hook.t) : Hook.t :=
  Hook.mk (on_server_started super)
          (Hook.on_player_connected super)
          (Hook.should_accept_player super)
          (Hook.on_player_accepted super)
          (Hook.on_player_rejected super).

End PingDatabaseMixin.

(** ** class TermninjaServer(PingDatabaseMixin, OptionalAuthenticationMixin, Server) *)

Module TermninjaServer.

Definition hooks `{Imports} (self : Self) : Hook.t :=
  PingDatabaseMixin.hooks
    (OptionalAuthenticationMixin.hooks
       (Server.hooks self)).

End TermninjaServer.

(** ** Objects of the two concrete classes *)

(** An object of a class as the file defines it: the class attributes of
    [Server], the port of the command line, and nothing added. *)
Definition new `{Imports} (class : string) (port : Z) : Self :=
  mkSelf class "0.0.0.0" WELCOME_MSG
         (blue cursor "Press enter to get started...") 1 "" port None None.

(** [asyncio.run] makes the loop's first task of [_start_serving]. *)
Definition boot : World :=
  mkWorld [] [] [mkTask StartServing false false] 0 [] [] [] [] [] 0 false [] None true.

(** Stand-ins for the two imports, for running the definitions: the usual
    terminal escapes, and a slug made of lower-case letters, digits and
    hyphens. *)
Definition esc : string := String (Ascii.ascii_of_nat 27) "[".

Definition sgr (colour : string) (s : string) : string :=
  (esc ++ colour ++ "m" ++ s ++ esc ++ "0m")%string.

Definition ansi : Cursor :=
  mkCursor (esc ++ "2J")%string (esc ++ "32m")%string (esc ++ "0m")%string
           (esc ++ "K")%string
           (fun n => esc ++ str_of_nat n ++ "A")%string
           (fun n => esc ++ str_of_nat n ++ "G")%string
           (sgr "32") (sgr "31") (sgr "34").

Definition slug_char (c : Ascii.ascii) : Ascii.ascii :=
  let n := Ascii.nat_of_ascii c in
  if (65 <=? n) && (n <=? 90) then Ascii.ascii_of_nat (n + 32)
  else if ((97 <=? n) && (n <=? 122)) || ((48 <=? n) && (n <=? 57)) then c
  else Ascii.ascii_of_nat 45.

Fixpoint hyphenate (s : string) : string :=
  match s with
  | EmptyString => EmptyString
  | String c s' => String (slug_char c) (hyphenate s')
  end.

Definition url_safe_char (c : Ascii.ascii) : bool :=
  let n := Ascii.nat_of_ascii c in
  ((97 <=? n) && (n <=? 122)) || ((48 <=? n) && (n <=? 57)) || (n =? 45).

(** A slug is safe in a URL when it has nothing but lower-case letters,
    digits and hyphens. *)
Fixpoint url_safe (s : string) : bool :=
  match s with
  | EmptyString => true
  | String c s' => url_safe_char c && url_safe s'
  end.

Definition terminal : Imports := mkImports ansi hyphenate.

(** ** The matchmaker and its producers *)

(** The batches given to [_launch_game] so far, oldest first. *)
Fixpoint launched (ts : list Task) : list (list Player) :=
  match ts with
  | [] => []
  | t :: ts' =>
      match coro t with
      | LaunchGame players => players :: launched ts'
      | _ => launched ts'
      end
  end.

(** The states that the queue, the matchmaker and the acceptors reach
    together: [matchmaking self arrived got w] when the sessions [arrived]
    have been put on the queue, in this order, and the matchmaker holds
    [got] in its comprehension.  Puts and turns of the matchmaker interleave
    in any way. *)
Inductive matchmaking (self : Self) : list Player -> list Player -> World -> Prop :=
| mm_start w :
    player_queue w = [] ->
    launched (tasks w) = [] ->
    matchmaking self [] [] w
| mm_put arrived got w p :
    matchmaking self arrived got w ->
    matchmaking self (arrived ++ [p]) got (snd (queue_put p w))
| mm_turn arrived got w got' w' :
    matchmaking self arrived got w ->
    Server._start_game_task_turn self got w = (Ok got', w') ->
    matchmaking self arrived got' w'.

(** The matchmaker waits: its next turn is a [get] on the empty queue. *)
Definition waiting (self : Self) (got : list Player) (w : World) : Prop :=
  Server._start_game_task_turn self got w = (Suspended, w).

(** All of [arrived] is put on the queue of [w]. *)
Definition enqueue_all (arrived : list Player) (w : World) : World :=
  fold_left (fun w p => snd (queue_put p w)) arrived w.

(** What the specification says of the matchmaker, with its last sentence
    read on the queue: when the matchmaker waits, it has formed the full
    batches of the arrivals, in order, and the sessions beyond the last full
    batch are still on the queue. *)
Definition batches_as_specified (self : Self) : Prop :=
  forall arrived got w,
    matchmaking self arrived got w ->
    waiting self got w ->
    let full := player_count self * (length arrived / player_count self) in
    length (launched (tasks w)) = length arrived / player_count self
    /\ Forall (fun batch => length batch = player_count self) (launched (tasks w))
    /\ concat (launched (tasks w)) = firstn full arrived
    /\ player_queue w = skipn full arrived.

(** A server class that rebinds [player_count] to 2. *)
Definition duo : Self := mkSelf "Duo" "0.0.0.0" "" "" 2 "" 3000 None None.

(** Sessions 1, 2 and 3 are accepted in this order and the matchmaker runs
    until it waits. *)
Definition three_arrivals : option (list Player * World) :=
  Server._start_game_task duo 8 [] (enqueue_all [1; 2; 3] boot).

(** ** Observations on worlds and traces *)

(** Nothing disturbs the running task: no signal is on its way, no peer
    hangs up, and no cancellation of the task is pending. *)
Definition quiet (w : World) : bool :=
  match signals w, resets w with
  | [], [] =>
      match nth_error (tasks w) (current w) with
      | Some t => negb (cancel_requested t)
      | None => true
      end
  | _, _ => false
  end.

(** The world after the calls [evs]. *)
Definition said (evs : list Event) (w : World) : World :=
  with_trace (fun t => t ++ evs) w.

(** How often the transport of [p] was closed. *)
Fixpoint closes (p : Player) (t : list Event) : nat :=
  match t with
  | [] => 0
  | Close q :: t' => (if Nat.eqb p q then 1 else 0) + closes p t'
  | _ :: t' => closes p t'
  end.

(** How often the persistence connection was asked to disconnect. *)
Fixpoint disconnects (t : list Event) : nat :=
  match t with
  | [] => 0
  | DbDisconnect :: t' => 1 + disconnects t'
  | _ :: t' => disconnects t'
  end.

(** The tokens looked up in the persistence service. *)
Fixpoint queries (t : list Event) : list string :=
  match t with
  | [] => []
  | SelectByPlayToken token :: t' => token :: queries t'
  | _ :: t' => queries t'
  end.

(** The server object of the composed class, on the default port. *)
Definition termninja : Self := @new terminal "TermninjaServer" 3000.

(** The process gets [first] while it serves and [second] while the top
    level, cancelled by the first, awaits the disconnection of the
    persistence service: the awaits of the top level are the connection, the
    gathering of the two core tasks and the disconnection. *)
Definition stopped_twice (first second : signame) (w : World) : World :=
  with_signals [[]; [first]; [second]] w.

Definition stopped_once (first : signame) (w : World) : World :=
  with_signals [[]; [first]] w.

(** What the specification says of a second signal: the server that is
    shutting down ends as if the signal had not come. *)
Definition second_signal_is_no_op (cls : Hook.t) : Prop :=
  forall first second w,
    let once := Server._start_serving cls (stopped_once first w) in
    let twice := Server._start_serving cls (stopped_twice first second w) in
    fst twice = fst once
    /\ db_connected (snd twice) = db_connected (snd once)
    /\ tasks (snd twice) = tasks (snd once).

(** A user of the persistence service whose token expires at 200, and the
    world in which it is registered, the clock is at 0 and the peers are
    about to send the lines [typed]. *)
Definition alice : User := mkUser "alice" 10 200.

Definition lobby (typed : list string) : World :=
  with_lines typed (with_users [("tok"%string, alice)] boot).

(** An observation of the trace that does not see what is printed. *)
Definition deaf {A} (f : list Event -> A) : Prop :=
  forall t text, f (t ++ [Print text]) = f t.

(** A coroutine that neither reads nor writes the users of the persistence
    service runs the same way whatever they are. *)
Definition blind {A} (m : M A) : Prop :=
  forall u w, m (with_users u w) = (fst (m w), with_users u (snd (m w))).

(** The coroutine [m] does not change what [f] observes of the trace. *)
Definition leaves {A X} (f : list Event -> X) (m : M A) : Prop :=
  forall w, f (trace (snd (m w))) = f (trace w).

(** ** The rest of the file *)

(** What [parser.parse_args()] gives: the port, 3000 unless the command line
    says otherwise, and the auto-reload flag. *)
Record Args : Type := mkArgs {
  args_port : Z;
  args_auto_reload : bool
}.

(** [os.environ.get]: the value of a variable, if it is set. *)
Fixpoint environ_get (name : string) (environ : list (string * string)) : option string :=
  match environ with
  | [] => None
  | (n, v) :: environ' => if String.eqb name n then Some v else environ_get name environ'
  end.

(** What [start] ends in: the reloader of the reloader module, which is not
    in the source, called on 2, or [asyncio.run] of [_start_serving] on the
    object with its port set. *)
Inductive Started : Type :=
| Watchdog (argument : Z)
| Run (self : Self) (main : M unit).

Definition set_port (port : Z) (self : Self) : Self :=
  mkSelf (class_name self) (HOST self) (welcome_message self)
         (continuation_message self) (player_count self) (description self)
         port (friendly_name self) (friendly_name_method self).

(** [Server.start]; [cls] resolves the hooks of the class of the object. *)
Definition start (cls : Self -> Hook.t) (self : Self) (args : Args)
    (environ : list (string * string)) : Started :=
  let self := set_port (args_port args) self in
  if args_auto_reload args
     && negb (match environ_get "TERMNINJA_SERVER_RUNNING" environ with
              | Some v => String.eqb v "true"
              | None => false
              end)
  then Watchdog 2
  else Run self (Server._start_serving (cls self)).

(** The hooks of the two classes of the file that can be instantiated. *)
Definition hooks_of `{Imports} (composed : bool) (self : Self) : Hook.t :=
  if composed then TermninjaServer.hooks self else Server.hooks self.

(** An observation of the world that the trace, the tasks and what the
    environment holds in store do not bear on. *)
Definition inert {X} (g : World -> X) : Prop :=
  (forall f w, g (with_trace f w) = g w)
  /\ (forall f w, g (with_tasks f w) = g w)
  /\ (forall s w, g (with_signals s w) = g w)
  /\ (forall r w, g (with_resets r w) = g w)
  /\ (forall l w, g (with_lines l w) = g w).

(** The coroutine [m] does not change what [g] observes of the world. *)
Definition preserves {A X} (g : World -> X) (m : M A) : Prop :=
  forall w, g (snd (m w)) = g w.

(** The coroutine touches neither the queue nor the transport of [p]. *)
Definition tidy {A} (p : Player) (m : M A) : Prop :=
  preserves player_queue m /\ leaves (closes p) m.

(** The world after the registration loop: one handler for each of the two
    names, in the order in which the set yielded them. *)
Definition registered (w : World) : World :=
  fold_left (fun w' s => with_signal_handlers (cons s) (said [AddSignalHandler s] w'))
            (if sigint_first w then [SIGINT; SIGTERM] else [SIGTERM; SIGINT]) w.

(** The world in which the started hook runs: the handlers are registered,
    the persistence service is connected, the queue is new and the two core
    tasks exist. *)
Definition started (w : World) : World :=
  with_tasks (fun ts => ts ++ [mkTask StartGameTask false false])
    (with_tasks (fun ts => ts ++ [mkTask ServerTask false false])
       (with_player_queue (fun _ => [])
          (with_db_connected true
             (said [DbConnect] (registered w))))).

(** What is printed apart, the calls of a trace. *)
Fixpoint calls (t : list Event) : list Event :=
  match t with
  | [] => []
  | Print _ :: t' => calls t'
  | e :: t' => e :: calls t'
  end.

(** The calls that the heartbeat makes, in order, [rounds] rounds of them. *)
Definition heartbeat_calls (slug : string) (fields : GameFields) (rounds : nat) : list Event :=
  CreateOrUpdateGame slug fields
  :: concat (repeat [UpdateGame slug; Sleep PingDatabaseMixin.ping_database_interval] rounds).

(** What has become of the session [p] between the world [w] and the outcome
    [out]: after a normal return it is on the queue, once more than before,
    and not closed, or it is closed, once more than before, and not on the
    queue; otherwise neither has changed. *)
Definition settled {A} (p : Player) (w : World) (out : Res A * World) : Prop :=
  match fst out with
  | Ok _ =>
      (player_queue (snd out) = player_queue w ++ [p]
       /\ closes p (trace (snd out)) = closes p (trace w))
      \/ (player_queue (snd out) = player_queue w
          /\ closes p (trace (snd out)) = closes p (trace w) + 1)
  | _ =>
      player_queue (snd out) = player_queue w
      /\ closes p (trace (snd out)) = closes p (trace w)
  end.

(** A server class that rebinds [player_count] to 0. *)
Definition idle : Self := mkSelf "Idle" "0.0.0.0" "" "" 0 "" 3000 None None.

(** The running task, which is not done and has no cancellation pending,
    goes through [n] suspensions in peace, and during the next a signal that
    has its handler arrives. *)
Definition armed (n : nat) (s : signame) (w : World) : Prop :=
  (exists more later, signals w = repeat [] n ++ (s :: more) :: later)
  /\ existsb (signame_eqb s) (signal_handlers w) = true
  /\ exists t, nth_error (tasks w) (current w) = Some t
              /\ finished t = false /\ cancel_requested t = false.

(** What the specification says of the cancellation of the shutdown: on
    every run on which the initialization completes and the running work is
    cancelled, the top level returns normally. *)
Definition cancellation_never_surfaces (cls : Hook.t) : Prop :=
  forall w w1 w2,
    bind Server._register_signal_handlers (fun _ => Server._initialize) w
    = (Ok tt, w1) ->
    Server.serving cls w1 = (Raise CancelledError, w2) ->
    fst (Server._start_serving cls w) = Ok tt.

(** An object of the base class, on the default port. *)
Definition base : Self := @new terminal "Server" 3000.

(** What the specification says of the base server: every connection that
    comes through the connected hook is put on the queue. *)
Definition survivors_are_enqueued (self : Self) : Prop :=
  forall p w w1,
    Server.on_player_connected self p
      (said [Print ("[+] connection:  " ++ str_of_nat p)] w) = (Ok tt, w1) ->
    exists w',
      Server._on_connection (Server.hooks self) p w = (Ok tt, w')
      /\ player_queue w' = player_queue w ++ [p].

(** * Properties *)

Unset Implicit Arguments.

(** ** Matchmaking *)

Lemma launched_app (a b : list Task) :
  launched (a ++ b) = launched a ++ launched b.
Proof.
  induction a as [|t a IH]; simpl; [reflexivity|].
  destruct (coro t); rewrite ?IH; reflexivity.
Qed.

(** A turn either takes the head of the queue into the comprehension or
    turns a complete comprehension into a task. *)
Lemma turn_cases (self : Self) (got got' : list Player) (w w' : World) :
  Server._start_game_task_turn self got w = (Ok got', w') ->
  (length got < player_count self /\
   (exists p, player_queue w = p :: player_queue w' /\ got' = got ++ [p]) /\
   tasks w' = tasks w)
  \/
  (player_count self <= length got /\ got' = [] /\
   player_queue w' = player_queue w /\
   tasks w' = tasks w ++ [mkTask (LaunchGame got) false false]).
Proof.
  unfold Server._start_game_task_turn.
  destruct (length got <? player_count self) eqn:E.
  - apply Nat.ltb_lt in E. unfold bind, queue_get, ret.
    destruct (player_queue w) as [|p q] eqn:Q; [discriminate|].
    intros H; inversion H; subst; clear H. left.
    split; [exact E|]. split; [|reflexivity].
    exists p. simpl. split; reflexivity.
  - apply Nat.ltb_ge in E. unfold bind, create_task, modify, ret.
    intros H; inversion H; subst; clear H. right.
    repeat split; simpl; auto.
Qed.

Lemma waiting_cases (self : Self) (got : list Player) (w : World) :
  waiting self got w ->
  length got < player_count self /\ player_queue w = [].
Proof.
  unfold waiting, Server._start_game_task_turn.
  destruct (length got <? player_count self) eqn:E.
  - apply Nat.ltb_lt in E. unfold bind, queue_get.
    destruct (player_queue w); [auto | discriminate].
  - unfold bind, create_task, modify, ret. discriminate.
Qed.

(** Nothing is lost, doubled or reordered on the way from the queue to the
    batches, and every batch is full. *)
Lemma matchmaking_invariant (self : Self) arrived got w :
  matchmaking self arrived got w ->
  concat (launched (tasks w)) ++ got ++ player_queue w = arrived
  /\ Forall (fun batch => length batch = player_count self) (launched (tasks w))
  /\ length got <= player_count self.
Proof.
  induction 1 as [w Q L | arrived got w p _ IH | arrived got w got' w' _ IH T].
  - rewrite Q, L. simpl. repeat split; [constructor | lia].
  - destruct IH as (C & F & G). simpl. repeat split; auto.
    rewrite <- C, <- !app_assoc. reflexivity.
  - destruct IH as (C & F & G).
    apply turn_cases in T.
    destruct T as [(Lt & (p & Q & ->) & Tk) | (Ge & -> & Q & Tk)].
    + rewrite Tk. repeat split; auto.
      * rewrite <- C, Q, <- !app_assoc. reflexivity.
      * rewrite length_app. simpl. lia.
    + rewrite Tk, launched_app. simpl. repeat split.
      * rewrite concat_app. simpl. rewrite app_nil_r, Q, <- C, <- !app_assoc.
        reflexivity.
      * apply Forall_app. split; [exact F|]. repeat constructor. lia.
      * lia.
Qed.

Lemma length_concat_full (n : nat) (batches : list (list Player)) :
  Forall (fun batch => length batch = n) batches ->
  length (concat batches) = n * length batches.
Proof.
  induction 1 as [|b bs Hb _ IH]; simpl; [lia|].
  rewrite length_app, IH, Hb. lia.
Qed.

(** The loop reaches its wait: two turns at most for each queued session
    and one more to find the queue empty. *)
Lemma start_game_task_waits (self : Self) :
  1 <= player_count self ->
  forall (q : nat) (fuel : nat) arrived got w,
    length (player_queue w) = q ->
    matchmaking self arrived got w ->
    2 * q + 2 <= fuel ->
    exists got' w',
      Server._start_game_task self fuel got w = Some (got', w')
      /\ matchmaking self arrived got' w'
      /\ waiting self got' w'.
Proof.
  intros Hpc.
  assert (Step : forall fuel arrived got w,
             matchmaking self arrived got w ->
             length got < player_count self ->
             2 * length (player_queue w) + 1 <= fuel ->
             exists got' w',
               Server._start_game_task self fuel got w = Some (got', w')
               /\ matchmaking self arrived got' w'
               /\ waiting self got' w').
  { induction fuel as [fuel IH] using lt_wf_ind.
    intros arrived got w R Lt Hf.
    destruct fuel as [|fuel]; [lia|].
    simpl.
    destruct (Server._start_game_task_turn self got w) as [r w1] eqn:T.
    pose proof T as T0.
    unfold Server._start_game_task_turn in T.
    apply Nat.ltb_lt in Lt. rewrite Lt in T. apply Nat.ltb_lt in Lt.
    unfold bind, queue_get, ret in T.
    destruct (player_queue w) as [|p q] eqn:Q.
    - inversion T; subst. exists got, w1. repeat split; auto.
    - inversion T; subst; clear T.
      set (w1 := with_player_queue (fun _ => q) w) in *.
      assert (R1 : matchmaking self arrived (got ++ [p]) w1)
        by (eapply mm_turn; eauto).
      destruct (Nat.eq_dec (length (got ++ [p])) (player_count self)) as [Full|NotFull].
      + (* the comprehension is complete: next turn launches *)
        destruct fuel as [|fuel]; [simpl in Hf; lia|].
        simpl.
        destruct (Server._start_game_task_turn self (got ++ [p]) w1) as [r2 w2] eqn:T2.
        pose proof T2 as T2'.
        unfold Server._start_game_task_turn in T2.
        replace (length (got ++ [p]) <? player_count self) with false in T2
          by (symmetry; apply Nat.ltb_ge; lia).
        unfold bind, create_task, modify, ret in T2.
        inversion T2; subst; clear T2.
        match goal with
        | |- context [Server._start_game_task self fuel [] ?W] => set (w2 := W) in *
        end.
        apply (IH fuel); [lia | eapply mm_turn; eauto | simpl; lia |].
        simpl in Hf |- *. lia.
      + apply (IH fuel); [lia | exact R1 | | simpl in Hf |- *; lia].
        pose proof (matchmaking_invariant _ _ _ _ R1) as (_ & _ & Le). lia. }
  intros q fuel arrived got w Hq R Hf.
  destruct (Nat.lt_ge_cases (length got) (player_count self)) as [Lt|Ge].
  - apply Step; auto. lia.
  - (* a complete comprehension is launched first *)
    destruct fuel as [|fuel]; [lia|].
    simpl.
    destruct (Server._start_game_task_turn self got w) as [r2 w2] eqn:T2.
    pose proof T2 as T2'.
    unfold Server._start_game_task_turn in T2.
    replace (length got <? player_count self) with false in T2
      by (symmetry; apply Nat.ltb_ge; lia).
    unfold bind, create_task, modify, ret in T2.
    inversion T2; subst; clear T2.
    apply Step; [eapply mm_turn; eauto | simpl; lia | simpl; lia].
Qed.

(** The run of the loop stays within the reachable states and ends at a
    wait. *)
Lemma start_game_task_sound (self : Self) (fuel : nat) :
  forall arrived got w got' w',
    matchmaking self arrived got w ->
    Server._start_game_task self fuel got w = Some (got', w') ->
    matchmaking self arrived got' w' /\ waiting self got' w'.
Proof.
  induction fuel as [|fuel IH]; simpl; intros arrived got w got' w' R E;
    [discriminate|].
  destruct (Server._start_game_task_turn self got w) as [[g| | |] w1] eqn:T;
    try discriminate.
  - eapply IH; [|exact E]. eapply mm_turn; eauto.
  - inversion E; subst; clear E.
    assert (w' = w) as ->.
    { unfold Server._start_game_task_turn in T.
      destruct (length got' <? player_count self).
      - unfold bind, queue_get in T.
        destruct (player_queue w); inversion T; reflexivity.
      - unfold bind, create_task, modify, ret in T. discriminate. }
    split; [exact R | exact T].
Qed.

Lemma matchmaking_enqueue_all (self : Self) (arrived : list Player) (w : World) :
  player_queue w = [] ->
  launched (tasks w) = [] ->
  matchmaking self arrived [] (enqueue_all arrived w).
Proof.
  intros Q L. induction arrived as [|p arrived IH] using rev_ind.
  - apply mm_start; assumption.
  - unfold enqueue_all. rewrite fold_left_app. simpl.
    apply mm_put. exact IH.
Qed.

(** C1 (amended): for every sequence of N sessions put on the queue, in
    whatever interleaving with the matchmaker's turns, once the matchmaker
    waits it has formed exactly N / player_count batches, each of exactly
    player_count sessions, which are the arrivals in order with none doubled
    and none skipped; the queue is empty, and the sessions beyond the last
    full batch are held, in order, in the batch that the matchmaker is
    collecting. *)
Theorem matchmaker_batches (self : Self) (arrived got : list Player) (w : World) :
  1 <= player_count self ->
  matchmaking self arrived got w ->
  waiting self got w ->
  let full := player_count self * (length arrived / player_count self) in
  length (launched (tasks w)) = length arrived / player_count self
  /\ Forall (fun batch => length batch = player_count self) (launched (tasks w))
  /\ concat (launched (tasks w)) = firstn full arrived
  /\ (NoDup arrived -> NoDup (concat (launched (tasks w))))
  /\ player_queue w = []
  /\ got = skipn full arrived
  /\ length got < player_count self.
Proof.
  intros Hpc R Wt full.
  destruct (matchmaking_invariant _ _ _ _ R) as (C & F & _).
  destruct (waiting_cases _ _ _ Wt) as (Lt & Q).
  rewrite Q, app_nil_r in C.
  pose proof (length_concat_full _ _ F) as Len.
  assert (N : length arrived
              = player_count self * length (launched (tasks w)) + length got).
  { rewrite <- C, length_app, Len. reflexivity. }
  assert (D : length (launched (tasks w)) = length arrived / player_count self).
  { eapply Nat.div_unique; [exact Lt | exact N]. }
  assert (Full : full = length (concat (launched (tasks w)))).
  { unfold full. rewrite <- D, Len. reflexivity. }
  repeat split; auto.
  - rewrite Full, <- C. rewrite firstn_app, firstn_all, Nat.sub_diag.
    simpl. rewrite app_nil_r. reflexivity.
  - intros ND. rewrite <- C in ND. eapply NoDup_app_remove_r; eauto.
  - rewrite Full, <- C. rewrite skipn_app, skipn_all, Nat.sub_diag.
    reflexivity.
Qed.

Lemma matchmaker_batches_witness :
  length (launched (tasks (with_tasks (fun ts => ts ++ [mkTask (LaunchGame [1; 2]) false false]) boot)))
  = 3 / 2
  /\ three_arrivals
     = Some ([3], with_tasks (fun ts => ts ++ [mkTask (LaunchGame [1; 2]) false false]) boot).
Proof.
  assert (E : Server._start_game_task duo 8 [] (enqueue_all [1; 2; 3] boot)
              = Some ([3], with_tasks (fun ts => ts ++ [mkTask (LaunchGame [1; 2]) false false]) boot))
    by (vm_compute; reflexivity).
  split; [|exact E].
  destruct (start_game_task_sound duo 8 [1; 2; 3] [] (enqueue_all [1; 2; 3] boot)
              [3] (with_tasks (fun ts => ts ++ [mkTask (LaunchGame [1; 2]) false false]) boot)
              (matchmaking_enqueue_all duo [1; 2; 3] boot eq_refl eq_refl) E)
    as (R & Wt).
  apply (@matchmaker_batches duo [1; 2; 3] [3] _ ltac:(simpl; lia) R Wt).
Defined.

(** C1 (as specified) fails: with player_count = 2 and arrivals 1, 2, 3 the
    matchmaker launches the batch (1, 2), takes 3 off the queue and waits
    holding it; the queue is empty, session 3 is not on it. *)
Lemma remainder_not_queued :
  three_arrivals
  = Some ([3], with_tasks (fun ts => ts ++ [mkTask (LaunchGame [1; 2]) false false]) boot)
  /\ player_queue (with_tasks (fun ts => ts ++ [mkTask (LaunchGame [1; 2]) false false]) boot) = []
  /\ ~ batches_as_specified duo.
Proof.
  assert (E : Server._start_game_task duo 8 [] (enqueue_all [1; 2; 3] boot)
              = Some ([3], with_tasks (fun ts => ts ++ [mkTask (LaunchGame [1; 2]) false false]) boot))
    by (vm_compute; reflexivity).
  split; [exact E|]. split; [reflexivity|].
  intros Spec.
  destruct (start_game_task_sound duo 8 [1; 2; 3] [] (enqueue_all [1; 2; 3] boot)
              [3] (with_tasks (fun ts => ts ++ [mkTask (LaunchGame [1; 2]) false false]) boot)
              (matchmaking_enqueue_all duo [1; 2; 3] boot eq_refl eq_refl) E)
    as (R & Wt).
  destruct (Spec _ _ _ R Wt) as (_ & _ & _ & Q).
  simpl in Q. discriminate Q.
Qed.

(** ** Sequencing *)

Lemma bind_ok {A B} (m : M A) (k : A -> M B) (w w' : World) (a : A) :
  m w = (Ok a, w') -> bind m k w = k a w'.
Proof. unfold bind. intros ->. reflexivity. Qed.

Lemma bind_raise {A B} (m : M A) (k : A -> M B) (w w' : World) (e : exn) :
  m w = (Raise e, w') -> bind m k w = (Raise e, w').
Proof. unfold bind. intros ->. reflexivity. Qed.

Lemma bind_assoc {A B C} (m : M A) (k : A -> M B) (h : B -> M C) (w : World) :
  bind (bind m k) h w = bind m (fun a => bind (k a) h) w.
Proof. unfold bind. destruct (m w) as [[a|e| |] w']; reflexivity. Qed.

(** ** Quiet worlds *)

Lemma quiet_signals (w : World) : quiet w = true -> signals w = [].
Proof. unfold quiet. destruct (signals w); [reflexivity | discriminate]. Qed.

Lemma quiet_resets (w : World) : quiet w = true -> resets w = [].
Proof.
  unfold quiet. destruct (signals w); [|discriminate].
  destruct (resets w); [reflexivity | discriminate].
Qed.

Lemma suspend_quiet (w : World) : quiet w = true -> suspend w = (Ok tt, w).
Proof.
  intros Q. pose proof (quiet_signals _ Q) as S.
  unfold suspend, Signals.arrivals. rewrite S.
  unfold quiet in Q. rewrite S in Q.
  destruct (resets w); [|discriminate].
  destruct (nth_error (tasks w) (current w)) as [t|]; [|reflexivity].
  destruct (cancel_requested t); [discriminate | reflexivity].
Qed.

Lemma link_quiet (w : World) : quiet w = true -> player.link w = (Ok tt, w).
Proof.
  intros Q. unfold player.link. rewrite (quiet_resets _ Q). reflexivity.
Qed.

Lemma send_quiet (p : Player) (msg : string) (w : World) :
  quiet w = true -> player.send p msg w = (Ok tt, said [Send p msg] w).
Proof.
  intros Q. unfold player.send, call, modify, bind.
  fold (said [Send p msg] w).
  assert (Q' : quiet (said [Send p msg] w) = true) by exact Q.
  rewrite (suspend_quiet _ Q'), (link_quiet _ Q'). reflexivity.
Qed.

Lemma readline_quiet (p : Player) (w : World) :
  quiet w = true ->
  player.readline p w
  = (Ok (hd EmptyString (lines w)), with_lines (tl (lines w)) (said [Readline p] w)).
Proof.
  intros Q. unfold player.readline, call, modify, bind.
  fold (said [Readline p] w).
  assert (Q' : quiet (said [Readline p] w) = true) by exact Q.
  rewrite (suspend_quiet _ Q'), (link_quiet _ Q'). simpl.
  destruct (lines w) eqn:L; [|reflexivity].
  unfold with_lines, said, with_trace. simpl. rewrite L. reflexivity.
Qed.

Lemma select_quiet (token : string) (w : World) :
  quiet w = true ->
  db.users_select_by_play_token token w
  = (Ok (db.find_token token (users w)), said [SelectByPlayToken token] w).
Proof.
  intros Q. unfold db.users_select_by_play_token, call, modify, bind.
  fold (said [SelectByPlayToken token] w).
  assert (Q' : quiet (said [SelectByPlayToken token] w) = true) by exact Q.
  rewrite (suspend_quiet _ Q'). reflexivity.
Qed.

Lemma said_said (a b : list Event) (w : World) :
  said b (said a w) = said (a ++ b) w.
Proof. unfold said, with_trace. simpl. rewrite app_assoc. reflexivity. Qed.

(** ** Traces across a suspension *)

Lemma deliver_deaf {A} (f : list Event -> A) (w : World) (s : signame) :
  deaf f -> f (trace (Signals.deliver w s)) = f (trace w).
Proof.
  intros D. unfold Signals.deliver.
  destruct (existsb (signame_eqb s) (signal_handlers w)); [|reflexivity].
  simpl. apply D.
Qed.

Lemma arrivals_deaf {A} (f : list Event -> A) (w : World) :
  deaf f -> f (trace (Signals.arrivals w)) = f (trace w).
Proof.
  intros D. unfold Signals.arrivals.
  destruct (signals w) as [|arriving later]; [reflexivity|].
  change (trace w) with (trace (with_signals later w)).
  generalize (with_signals later w). clear w.
  induction arriving as [|s arriving IH]; intros w; simpl; [reflexivity|].
  rewrite IH. apply deliver_deaf, D.
Qed.

Lemma suspend_deaf {A} (f : list Event -> A) (w : World) :
  deaf f -> f (trace (snd (suspend w))) = f (trace w).
Proof.
  intros D. unfold suspend.
  destruct (nth_error (tasks (Signals.arrivals w)) (current (Signals.arrivals w)))
    as [t|]; [destruct (cancel_requested t)|]; simpl; apply arrivals_deaf, D.
Qed.

Lemma closes_app (p : Player) (a b : list Event) :
  closes p (a ++ b) = closes p a + closes p b.
Proof.
  induction a as [|e a IH]; simpl; [reflexivity|].
  destruct e; auto. rewrite IH. lia.
Qed.

Lemma queries_app (a b : list Event) :
  queries (a ++ b) = queries a ++ queries b.
Proof.
  induction a as [|e a IH]; simpl; [reflexivity|].
  destruct e; auto. rewrite IH. reflexivity.
Qed.

Lemma closes_deaf (p : Player) : deaf (closes p).
Proof. intros t text. rewrite closes_app. simpl. lia. Qed.

Lemma queries_deaf : deaf queries.
Proof. intros t text. rewrite queries_app. simpl. apply app_nil_r. Qed.

(** ** Optional authentication *)


Lemma blind_bind {A B} (m : M A) (k : A -> M B) :
  blind m -> (forall a, blind (k a)) -> blind (bind m k).
Proof.
  intros Hm Hk u w. unfold bind. rewrite Hm.
  destruct (m w) as [[a|e| |] w']; simpl; try reflexivity. apply Hk.
Qed.

Lemma blind_modify (f : World -> World) :
  (forall u w, f (with_users u w) = with_users u (f w)) -> blind (modify f).
Proof. intros Hf u w. unfold modify. simpl. rewrite Hf. reflexivity. Qed.

Lemma blind_call (e : Event) : blind (call e).
Proof. apply blind_modify. reflexivity. Qed.

Lemma arrivals_users (u : list (string * User)) (w : World) :
  Signals.arrivals (with_users u w) = with_users u (Signals.arrivals w).
Proof.
  unfold Signals.arrivals. simpl.
  destruct (signals w) as [|arriving later]; [reflexivity|].
  change (with_signals later (with_users u w))
    with (with_users u (with_signals later w)).
  generalize (with_signals later w). clear w.
  induction arriving as [|s arriving IH]; intros w; simpl; [reflexivity|].
  rewrite <- IH. f_equal.
  unfold Signals.deliver. simpl.
  destruct (existsb (signame_eqb s) (signal_handlers w)); reflexivity.
Qed.

Lemma blind_suspend : blind suspend.
Proof.
  intros u w. unfold suspend. rewrite arrivals_users. simpl.
  destruct (nth_error (tasks (Signals.arrivals w)) (current (Signals.arrivals w)))
    as [t|]; [destruct (cancel_requested t)|]; reflexivity.
Qed.

Lemma blind_link : blind player.link.
Proof.
  intros u w. unfold player.link. simpl.
  destruct (resets w) as [|[] r]; reflexivity.
Qed.

Lemma blind_send (p : Player) (msg : string) : blind (player.send p msg).
Proof.
  unfold player.send.
  apply blind_bind; [apply blind_call | intros _].
  apply blind_bind; [apply blind_suspend | intros _; apply blind_link].
Qed.

Lemma blind_readline (p : Player) : blind (player.readline p).
Proof.
  unfold player.readline.
  apply blind_bind; [apply blind_call | intros _].
  apply blind_bind; [apply blind_suspend | intros _].
  apply blind_bind; [apply blind_link | intros _].
  intros u w. simpl. destruct (lines w); reflexivity.
Qed.

(** ** What a coroutine leaves untouched in the trace *)

Lemma leaves_bind {A B X} (f : list Event -> X) (m : M A) (k : A -> M B) :
  leaves f m -> (forall a, leaves f (k a)) -> leaves f (bind m k).
Proof.
  intros Hm Hk w. unfold bind. specialize (Hm w).
  destruct (m w) as [[a|e| |] w']; simpl in *; try exact Hm.
  rewrite Hk. exact Hm.
Qed.

Lemma leaves_call {A} (f : list Event -> A) (e : Event) :
  (forall t, f (t ++ [e]) = f t) -> leaves f (call e).
Proof. intros He w. simpl. apply He. Qed.

Lemma leaves_modify {A} (f : list Event -> A) (g : World -> World) :
  (forall w, trace (g w) = trace w) -> leaves f (modify g).
Proof. intros Hg w. simpl. rewrite Hg. reflexivity. Qed.

Lemma leaves_suspend {A} (f : list Event -> A) : deaf f -> leaves f suspend.
Proof. intros D w. apply suspend_deaf, D. Qed.

Lemma leaves_link {A} (f : list Event -> A) : leaves f player.link.
Proof.
  intros w. unfold player.link. destruct (resets w) as [|[] r]; reflexivity.
Qed.

Lemma leaves_send {A} (f : list Event -> A) (p : Player) (msg : string) :
  deaf f -> (forall t, f (t ++ [Send p msg]) = f t) ->
  leaves f (player.send p msg).
Proof.
  intros D S. unfold player.send.
  apply leaves_bind; [apply leaves_call, S | intros _].
  apply leaves_bind; [apply leaves_suspend, D | intros _; apply leaves_link].
Qed.

Lemma leaves_readline {A} (f : list Event -> A) (p : Player) :
  deaf f -> (forall t, f (t ++ [Readline p]) = f t) ->
  leaves f (player.readline p).
Proof.
  intros D R. unfold player.readline.
  apply leaves_bind; [apply leaves_call, R | intros _].
  apply leaves_bind; [apply leaves_suspend, D | intros _].
  apply leaves_bind; [apply leaves_link | intros _].
  intros w. destruct (lines w); reflexivity.
Qed.

Lemma queries_snoc (t : list Event) (e : Event) :
  queries [e] = [] -> queries (t ++ [e]) = queries t.
Proof. intros E. rewrite queries_app, E. apply app_nil_r. Qed.

Lemma closes_snoc (p : Player) (t : list Event) (e : Event) :
  closes p [e] = 0 -> closes p (t ++ [e]) = closes p t.
Proof. intros E. rewrite closes_app, E. lia. Qed.

(** C9: on every run of the should-accept hook of the optional
    authentication in which the line that the player sends is empty, the hook
    returns [True] and the persistence service is not asked for any token;
    the run is the same whatever the persistence service holds. *)
Theorem anonymous_accept_ignores_persistence `{Imports} (p : Player) (w w1 : World) :
  bind (player.send p OptionalAuthenticationMixin.enter_token_prompt)
       (fun _ => player.readline p) w = (Ok EmptyString, w1) ->
  OptionalAuthenticationMixin.should_accept_player p w = (Ok true, w1)
  /\ queries (trace w1) = queries (trace w)
  /\ forall persisted,
       OptionalAuthenticationMixin.should_accept_player p (with_users persisted w)
       = (Ok true, with_users persisted w1).
Proof.
  intros Line.
  assert (Shape : forall w0,
            OptionalAuthenticationMixin.should_accept_player p w0
            = bind (bind (player.send p OptionalAuthenticationMixin.enter_token_prompt)
                         (fun _ => player.readline p))
                   (fun token =>
                      if String.eqb token "" then ret true
                      else
                        bind (db.users_select_by_play_token token) (fun user =>
                        match user with
                        | None =>
                            bind (player.send p OptionalAuthenticationMixin.token_rejected_message)
                                 (fun _ => ret false)
                        | Some u =>
                            bind (OptionalAuthenticationMixin.token_is_expired
                                    (play_token_expires_at u)) (fun expired =>
                            if expired : bool
                            then bind (player.send p OptionalAuthenticationMixin.token_expired_message)
                                      (fun _ => ret false)
                            else bind (player.send p OptionalAuthenticationMixin.token_accepted_message)
                                      (fun _ => bind (player.assign_db_user p u)
                                                     (fun _ => ret true)))
                        end)) w0).
  { intros w0. rewrite bind_assoc. reflexivity. }
  repeat split.
  - rewrite Shape. erewrite bind_ok by exact Line. reflexivity.
  - assert (Q : leaves queries
                  (bind (player.send p OptionalAuthenticationMixin.enter_token_prompt)
                        (fun _ => player.readline p))).
    { apply leaves_bind; [|intros _].
      - apply leaves_send; [apply queries_deaf|].
        intros t. apply queries_snoc. reflexivity.
      - apply leaves_readline; [apply queries_deaf|].
        intros t. apply queries_snoc. reflexivity. }
    specialize (Q w). rewrite Line in Q. exact Q.
  - intros persisted. rewrite Shape.
    assert (Line' : bind (player.send p OptionalAuthenticationMixin.enter_token_prompt)
                         (fun _ => player.readline p) (with_users persisted w)
                    = (Ok EmptyString, with_users persisted w1)).
    { rewrite (blind_bind _ _ (blind_send p _) (fun _ => blind_readline p)).
      rewrite Line. reflexivity. }
    erewrite bind_ok by exact Line'. reflexivity.
Qed.


Lemma anonymous_accept_witness :
  let w1 :=
    with_lines []
      (said [Send 7 OptionalAuthenticationMixin.enter_token_prompt; Readline 7]
            (lobby [EmptyString])) in
  @OptionalAuthenticationMixin.should_accept_player terminal 7 (lobby [EmptyString])
  = (Ok true, w1)
  /\ queries (trace w1) = queries (trace (lobby [EmptyString]))
  /\ forall persisted,
       @OptionalAuthenticationMixin.should_accept_player terminal 7
         (with_users persisted (lobby [EmptyString]))
       = (Ok true, with_users persisted w1).
Proof.
  intros w1.
  apply (@anonymous_accept_ignores_persistence terminal 7 (lobby [EmptyString]) w1).
  reflexivity.
Defined.

(** ** The acceptor *)

(** C2: when the should-accept hook returns [True] and the accepted hook
    runs to completion, the acceptor then puts the session on the queue, once,
    and does not close it; when the hook returns [False] and the rejected hook
    has run, the acceptor then closes the transport, once, and does not put
    the session on the queue.  The rejected hook of the classes of the file
    does nothing, so the close of the acceptor is the only one. *)
Theorem acceptor_decision (cls : Hook.t) (p : Player) (accept : bool)
    (w w1 w2 : World) :
  Hook.should_accept_player cls p w = (Ok accept, w1) ->
  (if accept then Hook.on_player_accepted cls p w1
   else Hook.on_player_rejected cls p w1) = (Ok tt, w2) ->
  exists w',
    Server._accept_player cls p w = (Ok tt, w')
    /\ (if accept
        then player_queue w' = player_queue w2 ++ [p]
             /\ trace w' = trace w2
        else trace w' = trace w2 ++ [Close p]
             /\ closes p (trace w') = closes p (trace w2) + 1
             /\ player_queue w' = player_queue w2)
    /\ (forall (imports : Imports) self w0,
          Hook.on_player_rejected (Server.hooks self) p w0 = (Ok tt, w0)
          /\ Hook.on_player_rejected (@TermninjaServer.hooks imports self) p w0
             = (Ok tt, w0)).
Proof.
  intros Decide Follow.
  unfold Server._accept_player.
  erewrite bind_ok by exact Decide.
  destruct accept.
  - erewrite bind_ok by exact Follow.
    eexists. split; [reflexivity|]. split; [|split; reflexivity].
    split; reflexivity.
  - erewrite bind_ok by exact Follow.
    eexists. split; [reflexivity|]. split; [|split; reflexivity].
    repeat split. simpl. rewrite closes_app. simpl.
    rewrite Nat.eqb_refl. lia.
Qed.

Lemma acceptor_decision_witness :
  exists w',
    Server._accept_player (@TermninjaServer.hooks terminal termninja) 7
      (lobby ["nope"%string]) = (Ok tt, w')
    /\ closes 7 (trace w') = 1
    /\ player_queue w' = [].
Proof.
  edestruct (acceptor_decision (@TermninjaServer.hooks terminal termninja) 7 false
               (lobby ["nope"%string]))
    as (w' & Run & (Trace & Once & NotQueued) & _).
  - vm_compute. reflexivity.
  - vm_compute. reflexivity.
  - exists w'. split; [exact Run|]. split.
    + rewrite Once. vm_compute. reflexivity.
    + rewrite NotQueued. vm_compute. reflexivity.
Defined.

(** The handler of a connection never ends with the peer-disconnect error. *)
Lemma on_connection_never_reset (cls : Hook.t) (p : Player) (w0 : World) :
  fst (Server._on_connection cls p w0) <> Raise ConnectionResetError.
Proof.
  unfold Server._on_connection, print, call, modify. unfold bind at 1.
  unfold try_except.
  match goal with
  | |- context [match ?body with (_, _) => _ end] => destruct body as [[[]|e| |] w1]
  end; simpl; try discriminate.
  destruct e; simpl; discriminate.
Qed.

(** C6: when the pipeline of a connection, from the connected hook to the
    accepted or rejected hook, raises the peer-disconnect error, the handler
    of the connection closes the transport of the session and returns; the
    error does not leave [_on_connection], on any run, so what follows the
    connection, the next connection among it, goes on. *)
Theorem connection_reset_is_contained (cls : Hook.t) (p : Player) (w w' : World) :
  bind (Hook.on_player_connected cls p) (fun _ => Server._accept_player cls p)
       (said [Print ("[+] connection:  " ++ str_of_nat p)] w)
  = (Raise ConnectionResetError, w') ->
  Server._on_connection cls p w = (Ok tt, said [Close p] w')
  /\ closes p (trace (said [Close p] w')) = closes p (trace w') + 1
  /\ (forall q,
        bind (Server._on_connection cls p) (fun _ => Server._on_connection cls q) w
        = Server._on_connection cls q (said [Close p] w'))
  /\ (forall w0, fst (Server._on_connection cls p w0) <> Raise ConnectionResetError).
Proof.
  intros Reset.
  assert (Run : Server._on_connection cls p w = (Ok tt, said [Close p] w')).
  { unfold Server._on_connection, print, call, modify, bind at 1.
    fold (said [Print ("[+] connection:  " ++ str_of_nat p)] w).
    unfold try_except. rewrite Reset. reflexivity. }
  split; [exact Run|]. split; [|split].
  - simpl. rewrite closes_app. simpl. rewrite Nat.eqb_refl. lia.
  - intros q. erewrite bind_ok by exact Run. reflexivity.
  - apply on_connection_never_reset.
Qed.

Lemma connection_reset_witness :
  let w := with_resets [false; false; true] (lobby [EmptyString]) in
  let handled := Server._on_connection (@TermninjaServer.hooks terminal termninja) 7 w in
  fst handled = Ok tt
  /\ closes 7 (trace (snd handled)) = 1
  /\ player_queue (snd handled) = [].
Proof.
  intros w handled. unfold handled.
  edestruct (connection_reset_is_contained (@TermninjaServer.hooks terminal termninja) 7 w)
    as (Run & _).
  - vm_compute. reflexivity.
  - rewrite Run. repeat split; vm_compute; reflexivity.
Defined.

(** ** Start and stop *)

Lemma disconnect_quiet (w : World) :
  quiet w = true ->
  db.conn_disconnect w = (Ok tt, with_db_connected false (said [DbDisconnect] w)).
Proof.
  intros Q. unfold db.conn_disconnect, call, modify, bind.
  fold (said [DbDisconnect] w).
  assert (Q' : quiet (said [DbDisconnect] w) = true) by exact Q.
  rewrite (suspend_quiet _ Q'). reflexivity.
Qed.

Lemma disconnects_app (a b : list Event) :
  disconnects (a ++ b) = disconnects a + disconnects b.
Proof.
  induction a as [|e a IH]; simpl; [reflexivity|].
  destruct e; auto. rewrite IH. reflexivity.
Qed.

Lemma disconnects_snoc (t : list Event) (e : Event) :
  disconnects [e] = 0 -> disconnects (t ++ [e]) = disconnects t.
Proof. intros E. rewrite disconnects_app, E. lia. Qed.

Lemma disconnects_deaf : deaf disconnects.
Proof. intros t text. apply disconnects_snoc. reflexivity. Qed.

(** Registering the handlers leaves what does not see the registrations. *)
Lemma leaves_register {A} (f : list Event -> A) :
  (forall t s, f (t ++ [AddSignalHandler s]) = f t) ->
  leaves f Server._register_signal_handlers.
Proof.
  intros Add. unfold Server._register_signal_handlers.
  apply leaves_bind; [intros w; reflexivity | intros names].
  induction names as [|s names IH]; simpl; [intros w; reflexivity|].
  apply leaves_bind; [|intros _; exact IH].
  unfold Server.add_signal_handler.
  apply leaves_bind; [apply leaves_call; intros t; apply Add | intros _].
  apply leaves_modify; reflexivity.
Qed.

(** Registering the handlers and connecting do not disconnect. *)
Lemma initialization_leaves_disconnects :
  leaves disconnects
    (bind Server._register_signal_handlers (fun _ => Server._initialize)).
Proof.
  apply leaves_bind; [|intros _].
  - apply leaves_register. intros t s. apply disconnects_snoc. reflexivity.
  - unfold Server._initialize, db.conn_connect.
    apply leaves_bind; [|intros _; apply leaves_modify; reflexivity].
    apply leaves_bind; [apply leaves_call; intros t; apply disconnects_snoc; reflexivity | intros _].
    apply leaves_bind; [apply leaves_suspend, disconnects_deaf | intros _].
    apply leaves_modify; reflexivity.
Qed.


(** ** Stop signals *)

Lemma cancel_twice (t : Task) : Task_cancel (Task_cancel t) = Task_cancel t.
Proof.
  unfold Task_cancel. destruct t as [c r f]. simpl.
  destruct f; simpl; reflexivity.
Qed.

Lemma cancel_reaches (t : Task) :
  finished (Task_cancel t) = false -> cancel_requested (Task_cancel t) = true.
Proof.
  unfold Task_cancel. destruct t as [c r f]. simpl.
  destruct f; simpl; [discriminate | reflexivity].
Qed.

(** The handler leaves the running task with a cancellation pending, when
    it had one already and when it is not done. *)
Lemma deliver_cancels (s : signame) (w : World) (t : Task) :
  nth_error (tasks w) (current w) = Some t ->
  (cancel_requested t = true
   \/ (finished t = false /\ existsb (signame_eqb s) (signal_handlers w) = true)) ->
  exists t',
    nth_error (tasks (Signals.deliver w s)) (current (Signals.deliver w s)) = Some t'
    /\ cancel_requested t' = true.
Proof.
  intros Here Why. unfold Signals.deliver.
  destruct (existsb (signame_eqb s) (signal_handlers w)).
  - exists (Task_cancel t). simpl. rewrite nth_error_map, Here. split; [reflexivity|].
    unfold Task_cancel. destruct (finished t) eqn:F; [|reflexivity].
    destruct Why as [P | (F' & _)]; [exact P | discriminate].
  - exists t. split; [exact Here|].
    destruct Why as [P | (_ & X)]; [exact P | discriminate].
Qed.

Lemma deliveries_keep_cancelled (arriving : list signame) :
  forall (w : World) (t : Task),
    nth_error (tasks w) (current w) = Some t ->
    cancel_requested t = true ->
    exists t',
      nth_error (tasks (fold_left Signals.deliver arriving w))
                (current (fold_left Signals.deliver arriving w)) = Some t'
      /\ cancel_requested t' = true.
Proof.
  induction arriving as [|s arriving IH]; intros w t Here Pending.
  - exists t. split; assumption.
  - change (fold_left Signals.deliver (s :: arriving) w)
      with (fold_left Signals.deliver arriving (Signals.deliver w s)).
    destruct (deliver_cancels s w t Here (or_introl Pending)) as (t1 & Here1 & Pending1).
    exact (IH _ t1 Here1 Pending1).
Qed.

(** C7 (amended): a SIGINT and a SIGTERM make the same transition, which asks
    every task of the loop that is not done to cancel; both have their handler
    from the start; the running task gets the cancellation at the suspension
    point during which the signal arrives.  The handler has no notion of a
    shutdown under way: a second signal makes the transition again, which
    changes nothing for the tasks as the first signal left them. *)
Theorem stop_signal_cancels_every_task (s : signame) (w : World) :
  let w' := snd (Server._handle_stop_signal s w) in
  tasks w' = map Task_cancel (tasks w)
  /\ Forall (fun t => finished t = false -> cancel_requested t = true) (tasks w')
  /\ with_trace (fun _ => []) (snd (Server._handle_stop_signal SIGINT w))
     = with_trace (fun _ => []) (snd (Server._handle_stop_signal SIGTERM w))
  /\ signal_handlers (snd (Server._register_signal_handlers w))
     = (if sigint_first w then [SIGTERM; SIGINT] else [SIGINT; SIGTERM])
       ++ signal_handlers w
  /\ (forall name,
        existsb (signame_eqb name)
          (signal_handlers (snd (Server._register_signal_handlers w))) = true)
  /\ (forall more later t,
        signals w = (s :: more) :: later ->
        existsb (signame_eqb s) (signal_handlers w) = true ->
        nth_error (tasks w) (current w) = Some t ->
        finished t = false ->
        fst (suspend w) = Raise CancelledError)
  /\ (forall again, tasks (snd (Server._handle_stop_signal again w')) = tasks w').
Proof.
  assert (Registered : signal_handlers (snd (Server._register_signal_handlers w))
                       = (if sigint_first w then [SIGTERM; SIGINT] else [SIGINT; SIGTERM])
                         ++ signal_handlers w).
  { unfold Server._register_signal_handlers, Server.stop_signals. unfold bind at 1.
    destruct (sigint_first w); reflexivity. }
  intros w'. split; [reflexivity|]. split; [|split; [|split; [|split; [|split]]]].
  - unfold w'. simpl. apply Forall_map, Forall_forall.
    intros t _. apply cancel_reaches.
  - reflexivity.
  - exact Registered.
  - intros name. rewrite Registered.
    destruct (sigint_first w), name; reflexivity.
  - intros more later t Arrive Handled Here Running.
    unfold suspend, Signals.arrivals. rewrite Arrive.
    change (fold_left Signals.deliver (s :: more) (with_signals later w))
      with (fold_left Signals.deliver more
              (Signals.deliver (with_signals later w) s)).
    destruct (deliver_cancels s (with_signals later w) t Here
                (or_intror (conj Running Handled))) as (t1 & Here1 & Pending1).
    destruct (deliveries_keep_cancelled more _ t1 Here1 Pending1)
      as (t' & Here' & Pending').
    rewrite Here', Pending'. reflexivity.
  - intros again. unfold w'. simpl. rewrite map_map.
    apply map_ext. intros t. apply cancel_twice.
Qed.

(** C7 (as specified) fails: a second signal that arrives while the top
    level, cancelled by the first, awaits the disconnection of the persistence
    service cancels the top level again; the disconnection is interrupted,
    the connection stays open and the top level ends with [CancelledError]. *)
Lemma second_signal_interrupts_teardown :
  let cls := @TermninjaServer.hooks terminal termninja in
  fst (Server._start_serving cls (stopped_once SIGTERM boot)) = Ok tt
  /\ db_connected (snd (Server._start_serving cls (stopped_once SIGTERM boot))) = false
  /\ fst (Server._start_serving cls (stopped_twice SIGTERM SIGINT boot))
     = Raise CancelledError
  /\ db_connected (snd (Server._start_serving cls (stopped_twice SIGTERM SIGINT boot)))
     = true
  /\ ~ second_signal_is_no_op cls.
Proof.
  intros cls.
  assert (Once : fst (Server._start_serving cls (stopped_once SIGTERM boot)) = Ok tt)
    by (vm_compute; reflexivity).
  assert (Twice : fst (Server._start_serving cls (stopped_twice SIGTERM SIGINT boot))
                  = Raise CancelledError)
    by (vm_compute; reflexivity).
  split; [exact Once|]. split; [vm_compute; reflexivity|].
  split; [exact Twice|]. split; [vm_compute; reflexivity|].
  intros NoOp. destruct (NoOp SIGTERM SIGINT boot) as (Same & _).
  rewrite Once, Twice in Same. discriminate Same.
Qed.

(** ** The registration heartbeat *)

Lemma update_game_quiet (slug : string) (w : World) :
  quiet w = true ->
  db.games_update_game slug w = (Ok tt, said [UpdateGame slug] w).
Proof.
  intros Q. unfold db.games_update_game, call, modify, bind.
  fold (said [UpdateGame slug] w).
  assert (Q' : quiet (said [UpdateGame slug] w) = true) by exact Q.
  rewrite (suspend_quiet _ Q'). reflexivity.
Qed.

Lemma create_or_update_game_quiet (slug : string) (fields : GameFields) (w : World) :
  quiet w = true ->
  db.games_create_or_update_game slug fields w
  = (Ok tt, said [CreateOrUpdateGame slug fields] w).
Proof.
  intros Q. unfold db.games_create_or_update_game, call, modify, bind.
  fold (said [CreateOrUpdateGame slug fields] w).
  assert (Q' : quiet (said [CreateOrUpdateGame slug fields] w) = true) by exact Q.
  rewrite (suspend_quiet _ Q'). reflexivity.
Qed.

Lemma sleep_quiet (seconds : Z) (w : World) :
  quiet w = true ->
  asyncio_sleep seconds w = (Ok tt, said [Sleep seconds] w).
Proof.
  intros Q. unfold asyncio_sleep, call, modify, bind.
  fold (said [Sleep seconds] w).
  assert (Q' : quiet (said [Sleep seconds] w) = true) by exact Q.
  rewrite (suspend_quiet _ Q'). reflexivity.
Qed.

(** The loop of the heartbeat never leaves: after any number of rounds it
    has pinged that many times, a fixed interval apart, and is still
    running. *)
Lemma pinging_rounds (slug : string) (fuel : nat) :
  forall w,
    quiet w = true ->
    PingDatabaseMixin.pinging fuel slug w
    = (OutOfFuel,
       said (concat (repeat [UpdateGame slug;
                             Sleep PingDatabaseMixin.ping_database_interval] fuel)) w).
Proof.
  induction fuel as [|fuel IH]; intros w Q; simpl.
  - unfold said, with_trace. rewrite app_nil_r. destruct w; reflexivity.
  - unfold PingDatabaseMixin.ping_database.
    erewrite bind_ok by (apply update_game_quiet; exact Q).
    erewrite bind_ok by (apply sleep_quiet; exact Q).
    rewrite IH by exact Q. rewrite !said_said. reflexivity.
Qed.

(** C8: the started hook of the heartbeat makes a task of its own of the
    heartbeat and calls the started hook of the next class, once, on the world
    in which the task exists, without running any of the heartbeat itself.
    The task takes the display name of the server, makes its slug, upserts
    the registration record, once, and then pings the record for ever, every
    [ping_database_interval] seconds. *)
Theorem heartbeat `{Imports} (self : Self) (super : Hook.t) (w : World) (fuel : nat) :
  (forall name, url_safe (slugify name) = true) ->
  quiet w = true ->
  let name := Server.get_server_name self in
  let slug := slugify name in
  let spawned := with_tasks (fun ts => ts ++ [mkTask UpdateDatabaseTask false false]) w in
  url_safe slug = true
  /\ PingDatabaseMixin.on_server_started super w = Hook.on_server_started super spawned
  /\ Hook.on_server_started (TermninjaServer.hooks self) w = (Ok tt, spawned)
  /\ PingDatabaseMixin._update_database_task self fuel w
     = (OutOfFuel,
        said (CreateOrUpdateGame slug (mkGameFields name (description self) (port self))
              :: concat (repeat [UpdateGame slug; Sleep (2 * 60)] fuel)) w).
Proof.
  intros Safe Q name slug spawned.
  split; [apply Safe|]. split; [reflexivity|]. split; [reflexivity|].
  unfold PingDatabaseMixin._update_database_task.
  erewrite bind_ok by (apply create_or_update_game_quiet; exact Q).
  rewrite pinging_rounds by exact Q.
  rewrite said_said. reflexivity.
Qed.

Lemma slug_char_url_safe (c : Ascii.ascii) : url_safe_char (slug_char c) = true.
Proof. destruct c as [[] [] [] [] [] [] [] []]; vm_compute; reflexivity. Qed.

Lemma hyphenate_url_safe (name : string) : url_safe (hyphenate name) = true.
Proof.
  induction name as [|c name IH]; simpl; [reflexivity|].
  rewrite slug_char_url_safe, IH. reflexivity.
Qed.

Lemma heartbeat_witness :
  @PingDatabaseMixin._update_database_task terminal termninja 2 boot
  = (OutOfFuel,
     said [CreateOrUpdateGame "termninjaserver"
             (mkGameFields "TermninjaServer" "" 3000);
           UpdateGame "termninjaserver"; Sleep 120;
           UpdateGame "termninjaserver"; Sleep 120] boot).
Proof.
  apply (@heartbeat terminal termninja (Server.hooks termninja) boot 2
           hyphenate_url_safe eq_refl).
Defined.

(** ** Launching a game *)

(** C3 (the code at the failing input): [_launch_game] asks the server for
    [get_friendly_name], a name that no class of the file binds; on a server
    of the file the call raises [AttributeError] before any controller is
    built or started, although [get_server_name] would have given the display
    name. *)
Theorem launch_game_raises `{Imports} (class : string) (port : Z)
    (players : list Player) (w : World) :
  Server._launch_game (new class port) players w
  = (Raise (AttributeError "get_friendly_name"), w)
  /\ Server.get_server_name (new class port) = class
  /\ ~ In "get_friendly_name"%string
        (Server_names ++ OptionalAuthenticationMixin_names ++ PingDatabaseMixin_names)
  /\ In "get_server_name"%string Server_names.
Proof.
  split; [reflexivity|]. split; [reflexivity|]. split.
  - intros In. simpl in In.
    repeat (destruct In as [In | In]; [discriminate In|]). exact In.
  - simpl. tauto.
Qed.

(** * Further properties *)

(** ** What a coroutine leaves untouched in the world *)

Lemma deliver_inert {X} (g : World -> X) (w : World) (s : signame) :
  inert g -> g (Signals.deliver w s) = g w.
Proof.
  intros (Tr & Ts & _). unfold Signals.deliver.
  destruct (existsb (signame_eqb s) (signal_handlers w)); [|reflexivity].
  unfold Signals._handle_stop_signal, print, call, modify, bind. simpl.
  rewrite Ts, Tr. reflexivity.
Qed.

Lemma arrivals_inert {X} (g : World -> X) (w : World) :
  inert g -> g (Signals.arrivals w) = g w.
Proof.
  intros I. unfold Signals.arrivals.
  destruct (signals w) as [|arriving later]; [reflexivity|].
  assert (S : g (with_signals later w) = g w) by apply I.
  rewrite <- S. generalize (with_signals later w). clear S w.
  induction arriving as [|s arriving IH]; intros w; simpl; [reflexivity|].
  rewrite IH. apply deliver_inert, I.
Qed.

Lemma preserves_bind {A B X} (g : World -> X) (m : M A) (k : A -> M B) :
  preserves g m -> (forall a, preserves g (k a)) -> preserves g (bind m k).
Proof.
  intros Hm Hk w. unfold bind. specialize (Hm w).
  destruct (m w) as [[a|e| |] w']; simpl in *; try exact Hm.
  rewrite Hk. exact Hm.
Qed.

Lemma preserves_ret {A X} (g : World -> X) (a : A) : preserves g (ret a).
Proof. intros w. reflexivity. Qed.

Lemma preserves_call {X} (g : World -> X) (e : Event) :
  inert g -> preserves g (call e).
Proof. intros I w. simpl. apply I. Qed.

Lemma preserves_suspend {X} (g : World -> X) : inert g -> preserves g suspend.
Proof.
  intros I w. unfold suspend.
  destruct (nth_error (tasks (Signals.arrivals w)) (current (Signals.arrivals w)))
    as [t|]; [destruct (cancel_requested t)|]; simpl;
    [rewrite (proj1 (proj2 I))| |]; apply arrivals_inert, I.
Qed.

Lemma preserves_link {X} (g : World -> X) : inert g -> preserves g player.link.
Proof.
  intros I w. unfold player.link.
  destruct (resets w) as [|[] r]; simpl; try reflexivity; apply I.
Qed.

Lemma preserves_send {X} (g : World -> X) (p : Player) (msg : string) :
  inert g -> preserves g (player.send p msg).
Proof.
  intros I. unfold player.send.
  apply preserves_bind; [apply preserves_call, I | intros _].
  apply preserves_bind; [apply preserves_suspend, I | intros _].
  apply preserves_link, I.
Qed.

Lemma preserves_readline {X} (g : World -> X) (p : Player) :
  inert g -> preserves g (player.readline p).
Proof.
  intros I. unfold player.readline.
  apply preserves_bind; [apply preserves_call, I | intros _].
  apply preserves_bind; [apply preserves_suspend, I | intros _].
  apply preserves_bind; [apply preserves_link, I | intros _].
  intros w. destruct (lines w); simpl; [reflexivity | apply I].
Qed.

Lemma preserves_select {X} (g : World -> X) (token : string) :
  inert g -> preserves g (db.users_select_by_play_token token).
Proof.
  intros I. unfold db.users_select_by_play_token.
  apply preserves_bind; [apply preserves_call, I | intros _].
  apply preserves_bind; [apply preserves_suspend, I | intros _].
  intros w. reflexivity.
Qed.

Lemma inert_player_queue : inert player_queue.
Proof. repeat split. Qed.

Lemma inert_db_user : inert db_user.
Proof. repeat split. Qed.


Lemma inert_now : inert now.
Proof. repeat split. Qed.

Lemma inert_db_connected : inert db_connected.
Proof. repeat split. Qed.


Lemma leaves_select {A} (f : list Event -> A) (token : string) :
  deaf f -> (forall t, f (t ++ [SelectByPlayToken token]) = f t) ->
  leaves f (db.users_select_by_play_token token).
Proof.
  intros D S. unfold db.users_select_by_play_token.
  apply leaves_bind; [apply leaves_call, S | intros _].
  apply leaves_bind; [apply leaves_suspend, D | intros _].
  intros w. reflexivity.
Qed.

(** ** A session is queued or closed, not both *)

Lemma tidy_bind {A B} (p : Player) (m : M A) (k : A -> M B) :
  tidy p m -> (forall a, tidy p (k a)) -> tidy p (bind m k).
Proof.
  intros (Qm & Cm) Hk. split.
  - apply preserves_bind; [exact Qm | intros a; apply Hk].
  - apply leaves_bind; [exact Cm | intros a; apply Hk].
Qed.

Lemma tidy_ret {A} (p : Player) (a : A) : tidy p (ret a).
Proof. split; intros w; reflexivity. Qed.

Lemma tidy_send (p q : Player) (msg : string) : tidy p (player.send q msg).
Proof.
  split.
  - apply preserves_send, inert_player_queue.
  - apply leaves_send; [apply closes_deaf|].
    intros t. apply closes_snoc. reflexivity.
Qed.

Lemma tidy_readline (p q : Player) : tidy p (player.readline q).
Proof.
  split.
  - apply preserves_readline, inert_player_queue.
  - apply leaves_readline; [apply closes_deaf|].
    intros t. apply closes_snoc. reflexivity.
Qed.

Lemma tidy_select (p : Player) (token : string) :
  tidy p (db.users_select_by_play_token token).
Proof.
  split.
  - apply preserves_select, inert_player_queue.
  - apply leaves_select; [apply closes_deaf|].
    intros t. apply closes_snoc. reflexivity.
Qed.

Lemma tidy_assign (p q : Player) (u : User) : tidy p (player.assign_db_user q u).
Proof.
  unfold player.assign_db_user. apply tidy_bind; [|intros _].
  - split; [apply preserves_call, inert_player_queue|].
    apply leaves_call. intros t. apply closes_snoc. reflexivity.
  - split; intros w; reflexivity.
Qed.

Lemma tidy_should_accept `{Imports} (p q : Player) :
  tidy p (OptionalAuthenticationMixin.should_accept_player q).
Proof.
  unfold OptionalAuthenticationMixin.should_accept_player.
  apply tidy_bind; [apply tidy_send | intros _].
  apply tidy_bind; [apply tidy_readline | intros token].
  destruct (String.eqb token ""); [apply tidy_ret|].
  apply tidy_bind; [apply tidy_select | intros [u|]].
  - apply tidy_bind; [split; intros w; reflexivity | intros [|]].
    + apply tidy_bind; [apply tidy_send | intros _; apply tidy_ret].
    + apply tidy_bind; [apply tidy_send | intros _].
      apply tidy_bind; [apply tidy_assign | intros _; apply tidy_ret].
  - apply tidy_bind; [apply tidy_send | intros _; apply tidy_ret].
Qed.

Lemma tidy_base_accepted (self : Self) (p q : Player) :
  tidy p (Server.on_player_accepted self q).
Proof.
  unfold Server.on_player_accepted.
  apply tidy_bind; [apply tidy_send | intros _].
  apply tidy_bind; [apply tidy_readline | intros _; apply tidy_ret].
Qed.

Lemma tidy_accepted `{Imports} (super : Hook.t) (p q : Player) :
  tidy p (Hook.on_player_accepted super q) ->
  tidy p (OptionalAuthenticationMixin.on_player_accepted super q).
Proof.
  intros Next. unfold OptionalAuthenticationMixin.on_player_accepted.
  apply tidy_bind; [|intros _; exact Next].
  split; intros w.
  - apply (proj1 (tidy_send p q _)).
  - apply (proj2 (tidy_send p q _)).
Qed.

(** The hooks of both classes of the file are tidy. *)
Lemma tidy_hooks `{Imports} (composed : bool) (self : Self) (p : Player) :
  tidy p (Hook.on_player_connected (hooks_of composed self) p)
  /\ tidy p (Hook.should_accept_player (hooks_of composed self) p)
  /\ tidy p (Hook.on_player_accepted (hooks_of composed self) p)
  /\ tidy p (Hook.on_player_rejected (hooks_of composed self) p).
Proof.
  destruct composed; simpl; (split; [|split; [|split]]).
  - apply tidy_send.
  - apply tidy_should_accept.
  - apply tidy_accepted, tidy_base_accepted.
  - apply tidy_ret.
  - apply tidy_send.
  - apply tidy_ret.
  - apply tidy_base_accepted.
  - apply tidy_ret.
Qed.

Lemma accept_player_settled (cls : Hook.t) (p : Player) :
  tidy p (Hook.should_accept_player cls p) ->
  tidy p (Hook.on_player_accepted cls p) ->
  tidy p (Hook.on_player_rejected cls p) ->
  forall w, settled p w (Server._accept_player cls p w).
Proof.
  intros (Qs & Cs) (Qa & Ca) (Qr & Cr) w.
  unfold settled, Server._accept_player, bind.
  specialize (Qs w). specialize (Cs w).
  destruct (Hook.should_accept_player cls p w) as [[[|]|e| |] w1];
    simpl in Qs, Cs; try (simpl; split; assumption).
  - specialize (Qa w1). specialize (Ca w1).
    destruct (Hook.on_player_accepted cls p w1) as [[[]|e| |] w2];
      simpl in Qa, Ca; simpl; try (split; congruence).
    left. split; congruence.
  - specialize (Qr w1). specialize (Cr w1).
    destruct (Hook.on_player_rejected cls p w1) as [[[]|e| |] w2];
      simpl in Qr, Cr; simpl; try (split; congruence).
    right. split; [congruence|].
    rewrite closes_app. simpl. rewrite Nat.eqb_refl. lia.
Qed.

Lemma on_connection_settled (cls : Hook.t) (p : Player) :
  tidy p (Hook.on_player_connected cls p) ->
  tidy p (Hook.should_accept_player cls p) ->
  tidy p (Hook.on_player_accepted cls p) ->
  tidy p (Hook.on_player_rejected cls p) ->
  forall w, settled p w (Server._on_connection cls p w).
Proof.
  intros (Qc & Cc) Ts Ta Tr w.
  unfold Server._on_connection, print, call, modify. unfold bind at 1.
  fold (said [Print ("[+] connection:  " ++ str_of_nat p)] w).
  assert (Q0 : player_queue (said [Print ("[+] connection:  " ++ str_of_nat p)] w)
               = player_queue w) by reflexivity.
  assert (C0 : closes p (trace (said [Print ("[+] connection:  " ++ str_of_nat p)] w))
               = closes p (trace w))
    by (apply closes_snoc; reflexivity).
  generalize dependent (said [Print ("[+] connection:  " ++ str_of_nat p)] w).
  intros w0 Q0 C0.
  unfold try_except, bind.
  specialize (Qc w0). specialize (Cc w0).
  destruct (Hook.on_player_connected cls p w0) as [[[]|e| |] w1];
    simpl in Qc, Cc.
  - pose proof (accept_player_settled cls p Ts Ta Tr w1) as S.
    unfold settled in S |- *.
    destruct (Server._accept_player cls p w1) as [[[]|e| |] w2]; simpl in S |- *.
    + destruct S as [(Q & C) | (Q & C)]; [left | right]; split; congruence.
    + destruct S as (Q & C).
      destruct (exn_eqb e ConnectionResetError); simpl.
      * right. split; [congruence|].
        rewrite closes_app. simpl. rewrite Nat.eqb_refl. lia.
      * split; congruence.
    + destruct S as (Q & C). split; congruence.
    + destruct S as (Q & C). split; congruence.
  - unfold settled. destruct (exn_eqb e ConnectionResetError); simpl.
    + right. split; [congruence|].
      rewrite closes_app. simpl. rewrite Nat.eqb_refl. lia.
    + split; congruence.
  - unfold settled. simpl. split; congruence.
  - unfold settled. simpl. split; congruence.
Qed.

(** ** The base server *)

(** The two hooks that the base server runs on a connection touch neither
    the queue nor the transport. *)
Lemma base_hooks_frame (self : Self) (p : Player) (w w1 w2 : World)
    (r1 r2 : Res unit) :
  Server.on_player_connected self p
    (said [Print ("[+] connection:  " ++ str_of_nat p)] w) = (r1, w1) ->
  Server.on_player_accepted self p w1 = (r2, w2) ->
  player_queue w2 = player_queue w /\ closes p (trace w2) = closes p (trace w).
Proof.
  intros Connected Accepted.
  destruct (tidy_send p p (welcome_message self)) as (Qc & Cc).
  destruct (tidy_base_accepted self p p) as (Qa & Ca).
  specialize (Qc (said [Print ("[+] connection:  " ++ str_of_nat p)] w)).
  specialize (Cc (said [Print ("[+] connection:  " ++ str_of_nat p)] w)).
  specialize (Qa w1). specialize (Ca w1).
  unfold Server.on_player_connected in Connected.
  rewrite Connected in Qc, Cc. rewrite Accepted in Qa, Ca.
  cbn [snd] in Qc, Cc, Qa, Ca.
  split.
  - rewrite Qa, Qc. reflexivity.
  - rewrite Ca, Cc. apply closes_deaf.
Qed.

(** C10 (amended): the should-accept hook of the base server returns [True]
    for every player and does nothing else, so the acceptor of the base
    server always takes the accepted branch and never the rejected one: no
    session is rejected by the base behaviour.  A connection that comes
    through the connected hook is then with the accepted hook, which sends
    the continuation message and waits for a line.  When that hook returns,
    the session is put on the queue, once, and not closed.  When the peer
    hangs up meanwhile, the handler closes the session, once, and returns
    without putting it on the queue.  When the hook ends in another way, the
    handler ends the same way and the session is neither put on the queue
    nor closed. *)
Theorem base_server_accepts_everyone (self : Self) (p : Player) (w : World) :
  Hook.should_accept_player (Server.hooks self) p w = (Ok true, w)
  /\ Server._accept_player (Server.hooks self) p w
     = bind (Server.on_player_accepted self p) (fun _ => queue_put p) w
  /\ closes p (trace (snd (Server._accept_player (Server.hooks self) p w)))
     = closes p (trace w)
  /\ (forall w1 w2,
        Server.on_player_connected self p
          (said [Print ("[+] connection:  " ++ str_of_nat p)] w) = (Ok tt, w1) ->
        Server.on_player_accepted self p w1 = (Ok tt, w2) ->
        Server._on_connection (Server.hooks self) p w
        = (Ok tt, with_player_queue (fun q => q ++ [p]) w2)
        /\ player_queue (with_player_queue (fun q => q ++ [p]) w2)
           = player_queue w ++ [p]
        /\ closes p (trace (with_player_queue (fun q => q ++ [p]) w2))
           = closes p (trace w))
  /\ (forall w1 w2,
        Server.on_player_connected self p
          (said [Print ("[+] connection:  " ++ str_of_nat p)] w) = (Ok tt, w1) ->
        Server.on_player_accepted self p w1 = (Raise ConnectionResetError, w2) ->
        Server._on_connection (Server.hooks self) p w
        = (Ok tt, said [Close p] w2)
        /\ player_queue (said [Close p] w2) = player_queue w
        /\ closes p (trace (said [Close p] w2)) = closes p (trace w) + 1)
  /\ (forall w1 w2 r,
        Server.on_player_connected self p
          (said [Print ("[+] connection:  " ++ str_of_nat p)] w) = (Ok tt, w1) ->
        Server.on_player_accepted self p w1 = (r, w2) ->
        r <> Ok tt -> r <> Raise ConnectionResetError ->
        Server._on_connection (Server.hooks self) p w = (r, w2)
        /\ player_queue w2 = player_queue w
        /\ closes p (trace w2) = closes p (trace w)).
Proof.
  assert (Handler : forall w1,
            Server.on_player_connected self p
              (said [Print ("[+] connection:  " ++ str_of_nat p)] w) = (Ok tt, w1) ->
            Server._on_connection (Server.hooks self) p w
            = try_except
                (bind (Server.on_player_accepted self p) (fun _ => queue_put p))
                ConnectionResetError (player.close p) w1).
  { intros w1 Connected.
    unfold Server._on_connection, print, call, modify. unfold bind at 1.
    fold (said [Print ("[+] connection:  " ++ str_of_nat p)] w).
    unfold try_except.
    change (Hook.on_player_connected (Server.hooks self) p)
      with (Server.on_player_connected self p).
    erewrite bind_ok by exact Connected. reflexivity. }
  split; [reflexivity|]. split; [reflexivity|]. split; [|split; [|split]].
  - change (Server._accept_player (Server.hooks self) p w)
      with (bind (Server.on_player_accepted self p) (fun _ => queue_put p) w).
    apply (leaves_bind (closes p)); [|intros a w0; reflexivity].
    apply tidy_base_accepted.
  - intros w1 w2 Connected Accepted.
    destruct (base_hooks_frame self p w w1 w2 _ _ Connected Accepted) as (Q & C).
    rewrite (Handler w1 Connected). unfold try_except.
    erewrite bind_ok by exact Accepted.
    split; [reflexivity|]. split; [|exact C].
    simpl. rewrite Q. reflexivity.
  - intros w1 w2 Connected Reset.
    destruct (base_hooks_frame self p w w1 w2 _ _ Connected Reset) as (Q & C).
    rewrite (Handler w1 Connected). unfold try_except.
    erewrite bind_raise by exact Reset.
    split; [reflexivity|]. split; [exact Q|].
    simpl. rewrite closes_app, C. simpl. rewrite Nat.eqb_refl. reflexivity.
  - intros w1 w2 r Connected Accepted NotOk NotReset.
    destruct (base_hooks_frame self p w w1 w2 _ _ Connected Accepted) as (Q & C).
    rewrite (Handler w1 Connected). unfold try_except, bind. rewrite Accepted.
    split; [|split; [exact Q | exact C]].
    destruct r as [[]|e| |]; try reflexivity.
    + contradiction NotOk. reflexivity.
    + destruct e; simpl; try reflexivity. contradiction NotReset. reflexivity.
Qed.

(** On the default base server, a peer that is there for the welcome message
    and, also, for the continuation message and its answer. *)
Lemma base_server_accepts_everyone_witness :
  let w := with_resets [false; false; false] boot in
  fst (Server._on_connection (Server.hooks base) 7 w) = Ok tt
  /\ player_queue (snd (Server._on_connection (Server.hooks base) 7 w)) = [7]
  /\ closes 7 (trace (snd (Server._on_connection (Server.hooks base) 7 w))) = 0.
Proof.
  intros w.
  destruct (base_server_accepts_everyone base 7 w) as (_ & _ & _ & Queued & _).
  edestruct (Queued
               (snd (Server.on_player_connected base 7
                       (said [Print ("[+] connection:  " ++ str_of_nat 7)] w))))
    as (Run & Q & C); [vm_compute; reflexivity ..|].
  rewrite Run. cbn [fst snd]. split; [reflexivity|]. split; [exact Q | exact C].
Defined.

(** C10 (as specified) fails: a peer that is there for the welcome message
    and hangs up at the continuation message has come through the connected
    hook of the base server, and the handler closes the session and returns;
    the session is not on the queue. *)
Lemma base_connection_closed_at_prompt :
  let w := with_resets [false; true] boot in
  fst (Server.on_player_connected base 7
         (said [Print ("[+] connection:  " ++ str_of_nat 7)] w)) = Ok tt
  /\ fst (Server._on_connection (Server.hooks base) 7 w) = Ok tt
  /\ player_queue (snd (Server._on_connection (Server.hooks base) 7 w)) = []
  /\ closes 7 (trace (snd (Server._on_connection (Server.hooks base) 7 w))) = 1
  /\ ~ survivors_are_enqueued base.
Proof.
  intros w.
  assert (Empty : player_queue (snd (Server._on_connection (Server.hooks base) 7 w)) = [])
    by (vm_compute; reflexivity).
  split; [vm_compute; reflexivity|]. split; [vm_compute; reflexivity|].
  split; [exact Empty|]. split; [vm_compute; reflexivity|].
  intros Enqueued.
  destruct (Enqueued 7 w
              (snd (Server.on_player_connected base 7
                      (said [Print ("[+] connection:  " ++ str_of_nat 7)] w))))
    as (w' & Run & Queue); [vm_compute; reflexivity|].
  rewrite Run in Empty. cbn [snd] in Empty. rewrite Empty in Queue.
  discriminate Queue.
Qed.

(** X1: on every run of the handler of a connection, for both classes of the
    file and whatever the peer, the signals and the persistence service do:
    when the handler returns normally the session has been put on the queue
    once and not closed, or closed once and not put on the queue; when it
    ends otherwise the session is neither on the queue nor closed by it. *)
Theorem session_is_queued_or_closed `{Imports} (composed : bool) (self : Self)
    (p : Player) (w : World) :
  settled p w (Server._on_connection (hooks_of composed self) p w).
Proof.
  destruct (tidy_hooks composed self p) as (Tc & Ts & Ta & Tr).
  apply on_connection_settled; assumption.
Qed.

(** ** What the optional authentication does on any run *)





(** ** Start and stop, on any run *)

Lemma suspend_outcome (w : World) :
  fst (suspend w) = Ok tt \/ fst (suspend w) = Raise CancelledError.
Proof.
  unfold suspend.
  destruct (nth_error (tasks (Signals.arrivals w)) (current (Signals.arrivals w)))
    as [t|]; [destruct (cancel_requested t)|]; simpl; auto.
Qed.

(** The teardown makes one call to disconnect and does not wait for ever. *)
Lemma teardown_once (w : World) :
  disconnects (trace (snd (Server._teardown w))) = disconnects (trace w) + 1
  /\ (fst (Server._teardown w) = Ok tt
      \/ fst (Server._teardown w) = Raise CancelledError).
Proof.
  assert (Run : Server._teardown w
                = bind suspend (fun _ => modify (with_db_connected false))
                       (said [DbDisconnect] w)) by reflexivity.
  rewrite Run. unfold bind.
  pose proof (suspend_deaf disconnects (said [DbDisconnect] w) disconnects_deaf) as D.
  pose proof (suspend_outcome (said [DbDisconnect] w)) as O.
  simpl trace in D. rewrite disconnects_app in D. simpl disconnects in D.
  destruct (suspend (said [DbDisconnect] w)) as [[[]|e| |] w1]; simpl in *;
    destruct O as [O | O]; try discriminate; split; auto.
Qed.

(** The running work of both classes makes no call to disconnect and ends,
    if it ends, with an exception. *)
Lemma serving_outcome `{Imports} (composed : bool) (self : Self) (w : World) :
  disconnects (trace (snd (Server.serving (hooks_of composed self) w)))
  = disconnects (trace w)
  /\ (fst (Server.serving (hooks_of composed self) w) = Suspended
      \/ exists e, fst (Server.serving (hooks_of composed self) w) = Raise e).
Proof.
  assert (Gather : forall w0 awaited,
            disconnects (trace (snd (asyncio_gather awaited w0))) = disconnects (trace w0)
            /\ (fst (asyncio_gather awaited w0) = Suspended
                \/ exists e, fst (asyncio_gather awaited w0) = Raise e)).
  { intros w0 awaited. unfold asyncio_gather, bind.
    pose proof (suspend_deaf disconnects w0 disconnects_deaf) as D.
    pose proof (suspend_outcome w0) as O.
    destruct (suspend w0) as [[[]|e| |] w1]; simpl in *;
      destruct O as [O | O]; try discriminate.
    - destruct (core_failure w1) as [e|]; simpl; split; eauto.
    - split; eauto. }
  destruct composed; unfold Server.serving; simpl;
    unfold PingDatabaseMixin.on_server_started, Server.on_server_started,
      create_task, modify, ret;
    unfold bind at 1 2 3; simpl;
    match goal with
    | |- context [asyncio_gather ?a ?w0] => exact (Gather w0 a)
    end.
Qed.

(** The teardown makes its one call; it returns, and the connection is
    closed, or it is cancelled, and the connection is as it was. *)
Lemma teardown_outcome (w : World) :
  disconnects (trace (snd (Server._teardown w))) = disconnects (trace w) + 1
  /\ ((fst (Server._teardown w) = Ok tt
       /\ db_connected (snd (Server._teardown w)) = false)
      \/ (fst (Server._teardown w) = Raise CancelledError
          /\ db_connected (snd (Server._teardown w)) = db_connected w)).
Proof.
  assert (Run : Server._teardown w
                = bind suspend (fun _ => modify (with_db_connected false))
                       (said [DbDisconnect] w)) by reflexivity.
  rewrite Run. unfold bind.
  pose proof (suspend_deaf disconnects (said [DbDisconnect] w) disconnects_deaf) as D.
  pose proof (suspend_outcome (said [DbDisconnect] w)) as O.
  pose proof (preserves_suspend db_connected inert_db_connected
                (said [DbDisconnect] w)) as C.
  simpl trace in D. rewrite disconnects_app in D. simpl disconnects in D.
  change (db_connected (said [DbDisconnect] w)) with (db_connected w) in C.
  destruct (suspend (said [DbDisconnect] w)) as [[[]|e| |] w1]; simpl in *;
    destruct O as [O | O]; try discriminate; split; auto.
Qed.

(** C4 (amended): once the server is initialized, however its running work
    ends, by the cancellation of the shutdown, at whatever point of the work
    it falls, or by the failure of a core task, the top level then asks the
    persistence service to disconnect, exactly once, on every run.  When the
    teardown returns, the cancellation stops there: the top level returns
    normally with the connection closed, and only a failure that is not the
    cancellation is passed on.  When a further cancellation reaches the top
    level during the teardown, the disconnection is interrupted and the top
    level ends with [CancelledError]. *)
Theorem shutdown_is_absorbed (cls : Hook.t) (w w1 w2 : World) (e : exn) :
  bind Server._register_signal_handlers (fun _ => Server._initialize) w = (Ok tt, w1) ->
  Server.serving cls w1 = (Raise e, w2) ->
  let out := Server._start_serving cls w in
  let down := Server._teardown w2 in
  disconnects (trace w1) = disconnects (trace w)
  /\ disconnects (trace (snd out)) = disconnects (trace w2) + 1
  /\ (fst down = Ok tt \/ fst down = Raise CancelledError)
  /\ (fst down = Ok tt ->
      fst out = (if exn_eqb e CancelledError then Ok tt else Raise e)
      /\ (e = CancelledError -> fst out = Ok tt)
      /\ db_connected (snd out) = false)
  /\ (fst down = Raise CancelledError ->
      fst out = Raise CancelledError
      /\ db_connected (snd out) = db_connected w2)
  /\ (quiet w2 = true ->
      out = (if exn_eqb e CancelledError then Ok tt else Raise e,
             with_db_connected false (said [DbDisconnect] w2))).
Proof.
  intros Init Serving out down. subst out down.
  pose proof (initialization_leaves_disconnects w) as D0.
  rewrite Init in D0. simpl in D0.
  assert (Run : Server._start_serving cls w
                = match Server._teardown w2 with
                  | (Ok _, w3) =>
                      (if exn_eqb e CancelledError then Ok tt else Raise e, w3)
                  | other => other
                  end).
  { unfold Server._start_serving.
    rewrite <- (bind_assoc Server._register_signal_handlers
                  (fun _ => Server._initialize)).
    erewrite bind_ok by exact Init.
    unfold try_finally, try_except. rewrite Serving.
    destruct (exn_eqb e CancelledError); unfold bind, ret, raise;
      destruct (Server._teardown w2) as [[[]|e0| |] w3]; reflexivity. }
  destruct (teardown_outcome w2) as (Once & Down).
  split; [exact D0|].
  rewrite Run.
  destruct (Server._teardown w2) as [r w3] eqn:T. simpl in Once, Down.
  cbn [fst snd].
  split; [|split; [|split; [|split]]].
  - destruct r as [[]|e0| |]; exact Once.
  - destruct Down as [(-> & _) | (-> & _)]; auto.
  - intros ->. simpl. split; [reflexivity|]. split.
    + intros ->. reflexivity.
    + destruct Down as [(_ & C) | (X & _)]; [exact C | discriminate X].
  - intros ->. simpl. split; [reflexivity|].
    destruct Down as [(X & _) | (_ & C)]; [discriminate X | exact C].
  - intros Q. unfold Server._teardown in T.
    rewrite (disconnect_quiet w2 Q) in T.
    inversion T; subst. reflexivity.
Qed.

Lemma shutdown_is_absorbed_witness :
  let cls := @TermninjaServer.hooks terminal termninja in
  let run := Server._start_serving cls (stopped_once SIGTERM boot) in
  fst run = Ok tt
  /\ disconnects (trace (snd run)) = 1
  /\ db_connected (snd run) = false.
Proof.
  intros cls run. unfold run.
  edestruct (shutdown_is_absorbed cls (stopped_once SIGTERM boot))
    as (_ & Once & _ & Returns & _).
  - vm_compute. reflexivity.
  - vm_compute. reflexivity.
  - destruct Returns as (_ & Absorbed & Closed); [vm_compute; reflexivity|].
    split; [apply Absorbed; reflexivity|].
    split; [rewrite Once; vm_compute; reflexivity | exact Closed].
Defined.

(** C4 (as specified) fails: with a SIGTERM while the composed server serves
    and a SIGINT while its top level awaits the disconnection, the
    initialization completes and the running work is cancelled, and yet the
    top level ends with [CancelledError], the connection still open, after
    its one call to disconnect. *)
Lemma cancellation_during_teardown_surfaces :
  let cls := @TermninjaServer.hooks terminal termninja in
  let w := stopped_twice SIGTERM SIGINT boot in
  (exists w1 w2,
     bind Server._register_signal_handlers (fun _ => Server._initialize) w
     = (Ok tt, w1)
     /\ Server.serving cls w1 = (Raise CancelledError, w2))
  /\ fst (Server._start_serving cls w) = Raise CancelledError
  /\ db_connected (snd (Server._start_serving cls w)) = true
  /\ disconnects (trace (snd (Server._start_serving cls w))) = 1
  /\ ~ cancellation_never_surfaces cls.
Proof.
  intros cls w.
  assert (Surfaces : fst (Server._start_serving cls w) = Raise CancelledError)
    by (vm_compute; reflexivity).
  assert (Runs : exists w1 w2,
            bind Server._register_signal_handlers (fun _ => Server._initialize) w
            = (Ok tt, w1)
            /\ Server.serving cls w1 = (Raise CancelledError, w2)).
  { exists (snd (bind Server._register_signal_handlers
                     (fun _ => Server._initialize) w)).
    exists (snd (Server.serving cls
                   (snd (bind Server._register_signal_handlers
                           (fun _ => Server._initialize) w)))).
    split; vm_compute; reflexivity. }
  split; [exact Runs|]. split; [exact Surfaces|].
  split; [vm_compute; reflexivity|]. split; [vm_compute; reflexivity|].
  intros Never. destruct Runs as (w1 & w2 & Init & Cancelled).
  rewrite (Never w w1 w2 Init Cancelled) in Surfaces. discriminate Surfaces.
Qed.

(** X4: on every run of the top level of both classes of the file on which
    the initialization completes, whatever signals arrive and whenever: while
    the server serves, no call to disconnect is made; once the running work
    has ended, exactly one is made, also when a further signal interrupts
    it. *)
Theorem disconnects_exactly_once `{Imports} (composed : bool) (self : Self)
    (w w1 : World) :
  bind Server._register_signal_handlers (fun _ => Server._initialize) w = (Ok tt, w1) ->
  let out := Server._start_serving (hooks_of composed self) w in
  (fst out = Suspended /\ disconnects (trace (snd out)) = disconnects (trace w))
  \/ ((fst out = Ok tt \/ exists e, fst out = Raise e)
      /\ disconnects (trace (snd out)) = disconnects (trace w) + 1).
Proof.
  intros Init out. subst out.
  pose proof (initialization_leaves_disconnects w) as D0.
  rewrite Init in D0. simpl in D0.
  unfold Server._start_serving.
  rewrite <- (bind_assoc Server._register_signal_handlers
                (fun _ => Server._initialize)).
  erewrite bind_ok by exact Init.
  unfold try_finally, try_except.
  destruct (serving_outcome composed self w1) as (D1 & O1).
  destruct (Server.serving (hooks_of composed self) w1) as [r w2].
  simpl in D1, O1.
  destruct O1 as [-> | (e & ->)].
  - left. simpl. split; [reflexivity | congruence].
  - right.
    assert (Down : forall (after : unit -> M unit) (r0 : Res unit),
              (forall w0, after tt w0 = (r0, w0)) ->
              (r0 = Ok tt \/ exists e0, r0 = Raise e0) ->
              (fst (bind Server._teardown after w2) = Ok tt
               \/ exists e0, fst (bind Server._teardown after w2) = Raise e0)
              /\ disconnects (trace (snd (bind Server._teardown after w2)))
                 = disconnects (trace w) + 1).
    { intros after r0 After R0. unfold bind.
      destruct (teardown_once w2) as (T & O).
      destruct (Server._teardown w2) as [[[]|e0| |] w3]; simpl in T, O;
        destruct O as [O | O]; try discriminate.
      - rewrite After. simpl. split; [exact R0 | congruence].
      - simpl. split; [right; eauto | congruence]. }
    destruct (exn_eqb e CancelledError).
    + unfold ret at 1. apply (Down (fun _ => ret tt) (Ok tt)); [reflexivity | auto].
    + apply (Down (fun _ => raise e) (Raise e)); [reflexivity | eauto].
Qed.

Lemma disconnects_exactly_once_witness :
  let out := Server._start_serving (@hooks_of terminal true termninja)
               (stopped_twice SIGTERM SIGINT boot) in
  fst out = Raise CancelledError /\ disconnects (trace (snd out)) = 1.
Proof.
  intros out.
  edestruct (@disconnects_exactly_once terminal true termninja
               (stopped_twice SIGTERM SIGINT boot)) as [(S & _) | (_ & Once)].
  - vm_compute. reflexivity.
  - exfalso. revert S. vm_compute. discriminate.
  - split; [vm_compute; reflexivity | exact Once].
Defined.

(** The signals change the flags of the tasks, not the tasks there are. *)
Lemma arrivals_coros (w : World) :
  map coro (tasks (Signals.arrivals w)) = map coro (tasks w).
Proof.
  unfold Signals.arrivals.
  destruct (signals w) as [|arriving later]; [reflexivity|].
  change (tasks w) with (tasks (with_signals later w)).
  generalize (with_signals later w). clear w.
  induction arriving as [|s arriving IH]; intros w; simpl; [reflexivity|].
  rewrite IH. unfold Signals.deliver.
  destruct (existsb (signame_eqb s) (signal_handlers w)); [|reflexivity].
  simpl. rewrite map_map. apply map_ext.
  intros t. unfold Task_cancel. destruct (finished t); reflexivity.
Qed.

Lemma update_nth_coros (n : nat) (ts : list Task) :
  map coro (update_nth n Task_uncancel ts) = map coro ts.
Proof.
  revert n. induction ts as [|t ts IH]; intros [|n]; simpl; try reflexivity.
  rewrite IH. reflexivity.
Qed.

Lemma suspend_coros (w : World) :
  map coro (tasks (snd (suspend w))) = map coro (tasks w).
Proof.
  unfold suspend.
  destruct (nth_error (tasks (Signals.arrivals w)) (current (Signals.arrivals w)))
    as [t|]; [destruct (cancel_requested t)|]; simpl;
    rewrite ?update_nth_coros; apply arrivals_coros.
Qed.

(** A signal that has its handler and arrives during a suspension of a task
    that is not done cancels the task there. *)
Lemma register_outcome (w : World) :
  Server._register_signal_handlers w = (Ok tt, registered w).
Proof.
  unfold Server._register_signal_handlers, Server.stop_signals, registered, bind.
  destruct (sigint_first w); reflexivity.
Qed.

Lemma suspend_signalled (w : World) (s : signame) (more : list signame)
    (later : list (list signame)) (t : Task) :
  signals w = (s :: more) :: later ->
  existsb (signame_eqb s) (signal_handlers w) = true ->
  nth_error (tasks w) (current w) = Some t ->
  finished t = false ->
  fst (suspend w) = Raise CancelledError.
Proof.
  intros Arrive Handled Here Running.
  unfold suspend, Signals.arrivals. rewrite Arrive.
  change (fold_left Signals.deliver (s :: more) (with_signals later w))
    with (fold_left Signals.deliver more
            (Signals.deliver (with_signals later w) s)).
  destruct (deliver_cancels s (with_signals later w) t Here
              (or_intror (conj Running Handled))) as (t1 & Here1 & Pending1).
  destruct (deliveries_keep_cancelled more _ t1 Here1 Pending1)
    as (t' & Here' & Pending').
  rewrite Here', Pending'. reflexivity.
Qed.

(** X5: the initialization is outside the [try] of the top level.  A stop
    signal that arrives while the top level awaits the connection to the
    persistence service ends it with [CancelledError]: the cancellation is
    not absorbed, no call to disconnect is made, the connection is not
    marked open and no core task has been created. *)
Theorem signal_during_initialization (cls : Hook.t) (w : World) (s : signame)
    (more : list signame) (later : list (list signame)) (t : Task) :
  signals w = (s :: more) :: later ->
  nth_error (tasks w) (current w) = Some t ->
  finished t = false ->
  let out := Server._start_serving cls w in
  fst out = Raise CancelledError
  /\ disconnects (trace (snd out)) = disconnects (trace w)
  /\ db_connected (snd out) = db_connected w
  /\ map coro (tasks (snd out)) = map coro (tasks w).
Proof.
  intros Arrive Here Running out. subst out.
  set (wc := said [DbConnect] (registered w)).
  assert (Facts : signals wc = signals w /\ tasks wc = tasks w
                  /\ current wc = current w
                  /\ existsb (signame_eqb s) (signal_handlers wc) = true
                  /\ disconnects (trace wc) = disconnects (trace w)
                  /\ db_connected wc = db_connected w).
  { unfold wc, registered.
    destruct (sigint_first w); simpl;
      (repeat split; try reflexivity;
       [destruct s; reflexivity | rewrite !disconnects_app; simpl; lia]). }
  destruct Facts as (Sg & Ts & Cu & Handled & Dw & Cw).
  assert (Cancelled : fst (suspend wc) = Raise CancelledError).
  { apply (suspend_signalled wc s more later t).
    - rewrite Sg. exact Arrive.
    - exact Handled.
    - rewrite Ts, Cu. exact Here.
    - exact Running. }
  pose proof (suspend_deaf disconnects wc disconnects_deaf) as D.
  pose proof (preserves_suspend db_connected inert_db_connected wc) as C.
  pose proof (suspend_coros wc) as K.
  assert (Connect : db.conn_connect (registered w)
                    = (Raise CancelledError, snd (suspend wc))).
  { unfold db.conn_connect, call, modify. unfold bind at 1.
    apply bind_raise.
    match goal with |- context [suspend ?W] => change W with wc end.
    clear D C K.
    destruct (suspend wc) as [r w']. simpl in Cancelled. subst r. reflexivity. }
  assert (Run : Server._start_serving cls w
                = (Raise CancelledError, snd (suspend wc))).
  { unfold Server._start_serving.
    erewrite bind_ok by apply register_outcome.
    apply bind_raise. unfold Server._initialize.
    apply bind_raise. exact Connect. }
  rewrite Run. simpl. split; [reflexivity|]. split; [|split].
  - rewrite D. exact Dw.
  - rewrite C. exact Cw.
  - rewrite K, Ts. reflexivity.
Qed.

Lemma signal_during_initialization_witness :
  let out := Server._start_serving (@TermninjaServer.hooks terminal termninja)
               (with_signals [[SIGINT]] boot) in
  fst out = Raise CancelledError
  /\ disconnects (trace (snd out)) = 0
  /\ db_connected (snd out) = false
  /\ map coro (tasks (snd out)) = [StartServing].
Proof.
  exact (signal_during_initialization (@TermninjaServer.hooks terminal termninja)
           (with_signals [[SIGINT]] boot) SIGINT [] []
           (mkTask StartServing false false) eq_refl eq_refl eq_refl).
Defined.

Lemma connect_quiet (w : World) :
  quiet w = true ->
  db.conn_connect w = (Ok tt, with_db_connected true (said [DbConnect] w)).
Proof.
  intros Q. unfold db.conn_connect, call, modify, bind.
  fold (said [DbConnect] w).
  assert (Q' : quiet (said [DbConnect] w) = true) by exact Q.
  rewrite (suspend_quiet _ Q'). reflexivity.
Qed.

(** X6: without a signal, a peer reset or the failure of a core task the
    top level never tears down: it registers the two handlers, in the order
    in which the set of the two names yields them, connects, makes the queue,
    creates the two core tasks, in this order, runs the started hook in the
    world that has all of them, and then waits on its two tasks with the
    persistence connection open.  Whatever the order of the registration,
    both signals have a handler. *)
Theorem server_stays_up (cls : Hook.t) (w w2 : World) :
  quiet w = true ->
  Hook.on_server_started cls (started w) = (Ok tt, w2) ->
  quiet w2 = true ->
  core_failure w2 = None ->
  Server._start_serving cls w = (Suspended, w2)
  /\ db_connected (started w) = true
  /\ player_queue (started w) = []
  /\ signal_handlers (started w)
     = (if sigint_first w then [SIGTERM; SIGINT] else [SIGINT; SIGTERM])
       ++ signal_handlers w
  /\ (forall name, existsb (signame_eqb name) (signal_handlers (started w)) = true)
  /\ tasks (started w)
     = tasks w ++ [mkTask ServerTask false false; mkTask StartGameTask false false]
  /\ trace (started w)
     = trace w
       ++ map AddSignalHandler
            (if sigint_first w then [SIGINT; SIGTERM] else [SIGTERM; SIGINT])
       ++ [DbConnect].
Proof.
  intros Q Hook Q2 Alive.
  assert (Qr : quiet (registered w) = true).
  { unfold registered. destruct (sigint_first w); exact Q. }
  split; [|split; [reflexivity|split; [reflexivity|split; [|split; [|split]]]]].
  - unfold Server._start_serving.
    erewrite bind_ok by apply register_outcome.
    assert (Init : Server._initialize (registered w)
                   = (Ok tt,
                      with_player_queue (fun _ => [])
                        (with_db_connected true
                           (said [DbConnect] (registered w))))).
    { unfold Server._initialize.
      erewrite bind_ok by (apply connect_quiet; exact Qr). reflexivity. }
    erewrite bind_ok by exact Init.
    unfold try_finally, try_except.
    assert (Serving : Server.serving cls
                        (with_player_queue (fun _ => [])
                           (with_db_connected true
                              (said [DbConnect] (registered w))))
                      = (Suspended, w2)).
    { unfold Server.serving.
      erewrite bind_ok by reflexivity.
      erewrite bind_ok by reflexivity.
      erewrite bind_ok by exact Hook.
      unfold asyncio_gather.
      erewrite bind_ok by (apply suspend_quiet; exact Q2).
      rewrite Alive. reflexivity. }
    rewrite Serving. reflexivity.
  - unfold started, registered. destruct (sigint_first w); reflexivity.
  - intros name. unfold started, registered.
    destruct (sigint_first w); destruct name; reflexivity.
  - unfold started, registered. destruct (sigint_first w); simpl;
      rewrite <- app_assoc; reflexivity.
  - unfold started, registered. destruct (sigint_first w); simpl;
      rewrite <- !app_assoc; reflexivity.
Qed.

Lemma server_stays_up_witness :
  Server._start_serving (@TermninjaServer.hooks terminal termninja) boot
  = (Suspended,
     with_tasks (fun ts => ts ++ [mkTask UpdateDatabaseTask false false]) (started boot)).
Proof.
  edestruct (server_stays_up (@TermninjaServer.hooks terminal termninja) boot
               (with_tasks (fun ts => ts ++ [mkTask UpdateDatabaseTask false false])
                           (started boot))) as (Run & _);
    [vm_compute; reflexivity ..|exact Run].
Defined.

(** X7: the handler of a connection catches the peer-disconnect error and
    nothing else: any other exception of the pipeline, the cancellation of
    the shutdown among them, leaves the handler as it came, and the handler
    does not close the transport. *)
Theorem other_errors_escape (cls : Hook.t) (p : Player) (w w' : World) (e : exn) :
  bind (Hook.on_player_connected cls p) (fun _ => Server._accept_player cls p)
       (said [Print ("[+] connection:  " ++ str_of_nat p)] w)
  = (Raise e, w') ->
  e <> ConnectionResetError ->
  Server._on_connection cls p w = (Raise e, w').
Proof.
  intros Fails Other.
  unfold Server._on_connection, print, call, modify. unfold bind at 1.
  fold (said [Print ("[+] connection:  " ++ str_of_nat p)] w).
  unfold try_except. rewrite Fails.
  destruct e; simpl; try reflexivity. contradiction Other. reflexivity.
Qed.

Lemma other_errors_escape_witness :
  let w := with_signal_handlers (cons SIGTERM) (with_signals [[]; [SIGTERM]] (lobby [])) in
  let out := Server._on_connection (@TermninjaServer.hooks terminal termninja) 7 w in
  fst out = Raise CancelledError /\ closes 7 (trace (snd out)) = 0.
Proof.
  intros w out. unfold out.
  eassert (E : Server._on_connection (@TermninjaServer.hooks terminal termninja) 7 w
               = (Raise CancelledError, _)).
  { apply other_errors_escape; [vm_compute; reflexivity | discriminate]. }
  rewrite E. split; [reflexivity | vm_compute; reflexivity].
Defined.

(** ** The matchmaker, further *)

(** X8: a server whose [player_count] is 0 never comes to wait for a
    player: every turn of its matchmaker launches an empty batch and leaves
    the queue as it is, so the loop runs on without a suspension for as long
    as it is observed. *)
Theorem zero_player_count_never_waits (self : Self) (fuel : nat) (w : World) :
  player_count self = 0 ->
  Server._start_game_task self fuel [] w = None
  /\ Server._start_game_task_turn self [] w
     = (Ok [], with_tasks (fun ts => ts ++ [mkTask (LaunchGame []) false false]) w)
  /\ player_queue (snd (Server._start_game_task_turn self [] w)) = player_queue w.
Proof.
  intros Zero.
  assert (Turn : forall w0,
            Server._start_game_task_turn self [] w0
            = (Ok [], with_tasks (fun ts => ts ++ [mkTask (LaunchGame []) false false]) w0)).
  { intros w0. unfold Server._start_game_task_turn. rewrite Zero. reflexivity. }
  split; [|split; [apply Turn | rewrite Turn; reflexivity]].
  revert w. induction fuel as [|fuel IH]; intros w; simpl; [reflexivity|].
  rewrite Turn. apply IH.
Qed.

Lemma zero_player_count_witness :
  Server._start_game_task idle 5 [] (enqueue_all [1; 2] boot) = None.
Proof.
  apply (zero_player_count_never_waits idle 5 (enqueue_all [1; 2] boot) eq_refl).
Defined.

Lemma count_occ_concat_app (p : Player) (a b c : list Player) :
  count_occ Nat.eq_dec (a ++ b ++ c) p
  = count_occ Nat.eq_dec a p + count_occ Nat.eq_dec b p + count_occ Nat.eq_dec c p.
Proof. unfold Player in *. rewrite !count_occ_app. lia. Qed.

(** X9: at every moment of the matchmaking, whatever the interleaving of
    puts and turns, the sessions launched, the sessions held by the
    matchmaker and the sessions on the queue are, in this order, exactly the
    sessions that arrived: each session is in one of the three as often as it
    arrived, and every batch launched is full. *)
Theorem sessions_are_conserved (self : Self) (arrived got : list Player) (w : World) :
  matchmaking self arrived got w ->
  concat (launched (tasks w)) ++ got ++ player_queue w = arrived
  /\ (forall p,
        count_occ Nat.eq_dec arrived p
        = count_occ Nat.eq_dec (concat (launched (tasks w))) p
          + count_occ Nat.eq_dec got p
          + count_occ Nat.eq_dec (player_queue w) p)
  /\ Forall (fun batch => length batch = player_count self) (launched (tasks w))
  /\ length got <= player_count self.
Proof.
  intros R. destruct (matchmaking_invariant _ _ _ _ R) as (C & F & G).
  split; [exact C|]. split; [|split; assumption].
  intros p. rewrite <- C at 1. apply count_occ_concat_app.
Qed.

Lemma sessions_are_conserved_witness :
  let w := with_tasks (fun ts => ts ++ [mkTask (LaunchGame [1; 2]) false false]) boot in
  concat (launched (tasks w)) ++ [3] ++ player_queue w = [1; 2; 3].
Proof.
  intros w.
  assert (E : Server._start_game_task duo 8 [] (enqueue_all [1; 2; 3] boot)
              = Some ([3], w))
    by (vm_compute; reflexivity).
  destruct (start_game_task_sound duo 8 [1; 2; 3] [] (enqueue_all [1; 2; 3] boot)
              [3] w
              (matchmaking_enqueue_all duo [1; 2; 3] boot eq_refl eq_refl) E)
    as (R & _).
  apply (sessions_are_conserved duo [1; 2; 3] [3] w R).
Defined.

Lemma app_same_length {A} (a b c d : list A) :
  length a = length b -> a ++ c = b ++ d -> a = b /\ c = d.
Proof.
  revert b. induction a as [|x a IH]; intros [|y b] L E; simpl in *;
    try discriminate; [auto|].
  injection E as -> E. destruct (IH b) as (-> & ->); [lia | exact E | auto].
Qed.

(** Full batches and a remainder that is not a batch are determined by
    their concatenation. *)
Lemma batches_unique (n : nat) (a : list (list Player)) :
  forall (b : list (list Player)) (ra rb : list Player),
    Forall (fun batch => length batch = n) a ->
    Forall (fun batch => length batch = n) b ->
    length ra < n -> length rb < n ->
    concat a ++ ra = concat b ++ rb ->
    a = b /\ ra = rb.
Proof.
  induction a as [|x a IH]; intros [|y b] ra rb Fa Fb La Lb E; simpl in E.
  - auto.
  - exfalso. apply Forall_inv in Fb.
    rewrite E, !length_app in La. lia.
  - exfalso. apply Forall_inv in Fa.
    rewrite <- E, !length_app in Lb. lia.
  - pose proof (Forall_inv Fa) as Hx. pose proof (Forall_inv Fb) as Hy.
    pose proof (Forall_inv_tail Fa) as Fa'. pose proof (Forall_inv_tail Fb) as Fb'.
    simpl in Hx, Hy.
    rewrite <- !app_assoc in E.
    destruct (app_same_length x y _ _ ltac:(congruence) E) as (-> & E').
    destruct (IH b ra rb Fa' Fb' La Lb E') as (-> & ->). auto.
Qed.

(** X10: the batches do not depend on the schedule.  Two runs that have put
    the same sessions on the queue, in the same order, and in which the
    matchmaker waits, have launched the same batches, in the same order, and
    hold the same sessions back, however puts and turns were interleaved. *)
Theorem batches_do_not_depend_on_the_schedule (self : Self)
    (arrived got1 got2 : list Player) (w1 w2 : World) :
  matchmaking self arrived got1 w1 -> waiting self got1 w1 ->
  matchmaking self arrived got2 w2 -> waiting self got2 w2 ->
  launched (tasks w1) = launched (tasks w2) /\ got1 = got2.
Proof.
  intros R1 W1 R2 W2.
  destruct (matchmaking_invariant _ _ _ _ R1) as (C1 & F1 & _).
  destruct (matchmaking_invariant _ _ _ _ R2) as (C2 & F2 & _).
  destruct (waiting_cases _ _ _ W1) as (L1 & Q1).
  destruct (waiting_cases _ _ _ W2) as (L2 & Q2).
  rewrite Q1, app_nil_r in C1. rewrite Q2, app_nil_r in C2.
  apply (batches_unique (player_count self)); try assumption.
  congruence.
Qed.

Lemma batches_do_not_depend_on_the_schedule_witness :
  exists got w,
    Server._start_game_task duo 4 [1]
      (snd (queue_put 3 (snd (queue_put 2
         (snd (Server._start_game_task_turn duo [] (snd (queue_put 1 boot))))))))
    = Some (got, w)
    /\ launched (tasks (with_tasks (fun ts => ts ++ [mkTask (LaunchGame [1; 2]) false false]) boot))
       = launched (tasks w)
    /\ [3] = got.
Proof.
  assert (E : Server._start_game_task duo 8 [] (enqueue_all [1; 2; 3] boot)
              = Some ([3], with_tasks (fun ts => ts ++ [mkTask (LaunchGame [1; 2]) false false]) boot))
    by (vm_compute; reflexivity).
  destruct (start_game_task_sound duo 8 [1; 2; 3] [] (enqueue_all [1; 2; 3] boot)
              [3] (with_tasks (fun ts => ts ++ [mkTask (LaunchGame [1; 2]) false false]) boot)
              (matchmaking_enqueue_all duo [1; 2; 3] boot eq_refl eq_refl) E)
    as (R1 & W1).
  (* another schedule: session 1 is taken before 2 and 3 arrive *)
  pose proof (@mm_put duo [] [] boot 1 (@mm_start duo boot eq_refl eq_refl)) as Ra.
  pose proof (@mm_turn duo _ [] _ [1]
                (snd (Server._start_game_task_turn duo [] (snd (queue_put 1 boot))))
                Ra eq_refl) as Rb.
  pose proof (@mm_put duo _ _ _ 3 (@mm_put duo _ _ _ 2 Rb)) as Rc.
  destruct (Server._start_game_task duo 4 [1]
              (snd (queue_put 3 (snd (queue_put 2
                 (snd (Server._start_game_task_turn duo [] (snd (queue_put 1 boot))))))))) 
    as [[got w]|] eqn:Run; [|vm_compute in Run; discriminate Run].
  destruct (start_game_task_sound duo 4 _ _ _ got w Rc Run) as (R2 & W2).
  exists got, w. split; [reflexivity|].
  apply (batches_do_not_depend_on_the_schedule duo [1; 2; 3] [3] got _ w R1 W1 R2 W2).
Defined.

(** ** A connection from end to end *)

Lemma should_accept_valid `{Imports} (p : Player) (w : World) (token : string)
    (more : list string) (u : User) :
  quiet w = true ->
  lines w = token :: more ->
  token <> EmptyString ->
  db.find_token token (users w) = Some u ->
  (now w <= play_token_expires_at u)%Z ->
  OptionalAuthenticationMixin.should_accept_player p w
  = (Ok true,
     with_db_user (cons (p, u))
       (said [AssignDbUser p u]
          (said [Send p OptionalAuthenticationMixin.token_accepted_message]
             (said [SelectByPlayToken token]
                (with_lines more
                   (said [Readline p]
                      (said [Send p OptionalAuthenticationMixin.enter_token_prompt] w))))))).
Proof.
  intros Q L Ne Hit Valid.
  unfold OptionalAuthenticationMixin.should_accept_player.
  erewrite bind_ok by (apply send_quiet; exact Q).
  erewrite bind_ok by (apply readline_quiet; exact Q).
  change (lines (said [Send p OptionalAuthenticationMixin.enter_token_prompt] w))
    with (lines w).
  rewrite L. change (hd EmptyString (token :: more)) with token.
  change (tl (token :: more)) with more.
  apply String.eqb_neq in Ne. rewrite Ne.
  erewrite bind_ok by (apply select_quiet; exact Q).
  match goal with
  | |- context [db.find_token token (users ?W)] => change (users W) with (users w)
  end.
  rewrite Hit.
  unfold OptionalAuthenticationMixin.token_is_expired. unfold bind at 1.
  match goal with
  | |- context [(_ <? now ?W)%Z] => change (now W) with (now w)
  end.
  apply Z.ltb_ge in Valid. rewrite Valid.
  erewrite bind_ok by (apply send_quiet; exact Q).
  reflexivity.
Qed.

Lemma should_accept_refused `{Imports} (p : Player) (w : World) (token : string)
    (more : list string) :
  quiet w = true ->
  lines w = token :: more ->
  token <> EmptyString ->
  match db.find_token token (users w) with
  | Some u => (play_token_expires_at u < now w)%Z
  | None => True
  end ->
  OptionalAuthenticationMixin.should_accept_player p w
  = (Ok false,
     said [Send p match db.find_token token (users w) with
                  | Some _ => OptionalAuthenticationMixin.token_expired_message
                  | None => OptionalAuthenticationMixin.token_rejected_message
                  end]
       (said [SelectByPlayToken token]
          (with_lines more
             (said [Readline p]
                (said [Send p OptionalAuthenticationMixin.enter_token_prompt] w))))).
Proof.
  intros Q L Ne Bad.
  unfold OptionalAuthenticationMixin.should_accept_player.
  erewrite bind_ok by (apply send_quiet; exact Q).
  erewrite bind_ok by (apply readline_quiet; exact Q).
  change (lines (said [Send p OptionalAuthenticationMixin.enter_token_prompt] w))
    with (lines w).
  rewrite L. change (hd EmptyString (token :: more)) with token.
  change (tl (token :: more)) with more.
  apply String.eqb_neq in Ne. rewrite Ne.
  erewrite bind_ok by (apply select_quiet; exact Q).
  match goal with
  | |- context [db.find_token token (users ?W)] => change (users W) with (users w)
  end.
  destruct (db.find_token token (users w)) as [u|].
  - unfold OptionalAuthenticationMixin.token_is_expired. unfold bind at 1.
    match goal with
    | |- context [(_ <? now ?W)%Z] => change (now W) with (now w)
    end.
    apply Z.ltb_lt in Bad. rewrite Bad.
    erewrite bind_ok by (apply send_quiet; exact Q).
    reflexivity.
  - erewrite bind_ok by (apply send_quiet; exact Q).
    reflexivity.
Qed.

(** X11: a connection of the composed server, from end to end, when the
    player gives a valid token and nothing disturbs the run.  The hooks run
    in the order connected, should-accept, accepted, and the accepted hook of
    the authentication runs before that of the base server: the welcome
    message, the prompt and the token, the lookup, the accepted message, the
    identity, the account of that very identity, the continuation message and
    its answer; then the session goes on the queue, once, and is not closed. *)
Theorem authenticated_connection `{Imports} (self : Self) (p : Player) (w : World)
    (token : string) (more : list string) (u : User) :
  quiet w = true ->
  lines w = token :: more ->
  token <> EmptyString ->
  db.find_token token (users w) = Some u ->
  (now w <= play_token_expires_at u)%Z ->
  exists w',
    Server._on_connection (TermninjaServer.hooks self) p w = (Ok tt, w')
    /\ trace w'
       = trace w
         ++ [Print ("[+] connection:  " ++ str_of_nat p);
             Send p (welcome_message self);
             Send p OptionalAuthenticationMixin.enter_token_prompt;
             Readline p;
             SelectByPlayToken token;
             Send p OptionalAuthenticationMixin.token_accepted_message;
             AssignDbUser p u;
             Send p (OptionalAuthenticationMixin.account (Some u));
             Send p (continuation_message self);
             Readline p]
    /\ player_queue w' = player_queue w ++ [p]
    /\ db_user w' = (p, u) :: db_user w
    /\ lines w' = tl more.
Proof.
  intros Q L Ne Hit Valid.
  unfold Server._on_connection.
  erewrite bind_ok by reflexivity.
  unfold try_except.
  change (Hook.on_player_connected (TermninjaServer.hooks self) p)
    with (player.send p (welcome_message self)).
  erewrite bind_ok by (apply send_quiet; exact Q).
  unfold Server._accept_player.
  change (Hook.should_accept_player (TermninjaServer.hooks self) p)
    with (OptionalAuthenticationMixin.should_accept_player p).
  erewrite bind_ok by (apply should_accept_valid; try eassumption; exact Q).
  change (Hook.on_player_accepted (TermninjaServer.hooks self) p)
    with (OptionalAuthenticationMixin.on_player_accepted (Server.hooks self) p).
  unfold OptionalAuthenticationMixin.on_player_accepted.
  rewrite bind_assoc.
  erewrite bind_ok by (cbv beta; apply send_quiet; exact Q).
  change (Hook.on_player_accepted (Server.hooks self) p)
    with (Server.on_player_accepted self p).
  unfold Server.on_player_accepted.
  rewrite !bind_assoc.
  erewrite bind_ok by (apply send_quiet; exact Q).
  rewrite ?bind_assoc.
  erewrite bind_ok by (apply readline_quiet; exact Q).
  eexists. split; [reflexivity|].
  split; [simpl; rewrite Nat.eqb_refl, <- !app_assoc; reflexivity|].
  split; [reflexivity|]. split; reflexivity.
Qed.

Lemma authenticated_connection_witness :
  exists w',
    Server._on_connection (@TermninjaServer.hooks terminal termninja) 7
      (lobby ["tok"%string; EmptyString]) = (Ok tt, w')
    /\ player_queue w' = [7]
    /\ db_user w' = [(7, alice)].
Proof.
  destruct (@authenticated_connection terminal termninja 7
              (lobby ["tok"%string; EmptyString]) "tok" [EmptyString] alice
              eq_refl eq_refl ltac:(discriminate) eq_refl ltac:(simpl; lia))
    as (w' & Run & _ & Queued & Known & _).
  exists w'. split; [exact Run|]. split; [exact Queued | exact Known].
Defined.

(** X12: a connection of the composed server, from end to end, when the
    player gives a token that the persistence service does not know or that
    has expired and nothing disturbs the run: the player gets the message of
    its case, the rejected hook of the base server adds nothing, the
    transport is closed, once, and that is the last thing done; the
    continuation message is not sent, no identity is attached and the session
    does not go on the queue. *)
Theorem refused_connection `{Imports} (self : Self) (p : Player) (w : World)
    (token : string) (more : list string) :
  quiet w = true ->
  lines w = token :: more ->
  token <> EmptyString ->
  match db.find_token token (users w) with
  | Some u => (play_token_expires_at u < now w)%Z
  | None => True
  end ->
  exists w',
    Server._on_connection (TermninjaServer.hooks self) p w = (Ok tt, w')
    /\ trace w'
       = trace w
         ++ [Print ("[+] connection:  " ++ str_of_nat p);
             Send p (welcome_message self);
             Send p OptionalAuthenticationMixin.enter_token_prompt;
             Readline p;
             SelectByPlayToken token;
             Send p match db.find_token token (users w) with
                    | Some _ => OptionalAuthenticationMixin.token_expired_message
                    | None => OptionalAuthenticationMixin.token_rejected_message
                    end;
             Close p]
    /\ player_queue w' = player_queue w
    /\ db_user w' = db_user w
    /\ lines w' = more.
Proof.
  intros Q L Ne Bad.
  unfold Server._on_connection.
  erewrite bind_ok by reflexivity.
  unfold try_except.
  change (Hook.on_player_connected (TermninjaServer.hooks self) p)
    with (player.send p (welcome_message self)).
  erewrite bind_ok by (apply send_quiet; exact Q).
  unfold Server._accept_player.
  change (Hook.should_accept_player (TermninjaServer.hooks self) p)
    with (OptionalAuthenticationMixin.should_accept_player p).
  erewrite bind_ok by (apply should_accept_refused; try eassumption; exact Q).
  change (Hook.on_player_rejected (TermninjaServer.hooks self) p)
    with (ret tt : M unit).
  eexists. split; [reflexivity|].
  split; [simpl; rewrite <- !app_assoc; reflexivity|].
  split; [reflexivity|]. split; reflexivity.
Qed.

Lemma refused_connection_witness :
  exists w',
    Server._on_connection (@TermninjaServer.hooks terminal termninja) 7
      (lobby ["nope"%string]) = (Ok tt, w')
    /\ player_queue w' = []
    /\ db_user w' = [].
Proof.
  destruct (@refused_connection terminal termninja 7 (lobby ["nope"%string])
              "nope" [] eq_refl eq_refl ltac:(discriminate) I)
    as (w' & Run & _ & Queue & Ids & _).
  exists w'. split; [exact Run|]. split; [exact Queue | exact Ids].
Defined.

(** ** The heartbeat and the cancellation *)

Lemma calls_app (a b : list Event) : calls (a ++ b) = calls a ++ calls b.
Proof.
  induction a as [|e a IH]; simpl; [reflexivity|].
  destruct e; simpl; rewrite ?IH; reflexivity.
Qed.

Lemma calls_deaf : deaf calls.
Proof. intros t text. rewrite calls_app. simpl. apply app_nil_r. Qed.

Lemma armed_said (n : nat) (s : signame) (evs : list Event) (w : World) :
  armed n s w -> armed n s (said evs w).
Proof. intros A. exact A. Qed.

Lemma suspend_armed_later (n : nat) (s : signame) (w : World) :
  armed (S n) s w ->
  exists w1, suspend w = (Ok tt, w1) /\ armed n s w1 /\ trace w1 = trace w.
Proof.
  intros ((more & later & Sig) & Handled & t & Here & Running & Calm).
  exists (with_signals (repeat [] n ++ (s :: more) :: later) w).
  unfold suspend, Signals.arrivals. rewrite Sig. simpl.
  rewrite Here, Calm. split; [reflexivity|]. split; [|reflexivity].
  split; [exists more, later; reflexivity|].
  split; [exact Handled|]. exists t. auto.
Qed.

Lemma suspend_armed_now (s : signame) (w : World) :
  armed 0 s w ->
  fst (suspend w) = Raise CancelledError
  /\ calls (trace (snd (suspend w))) = calls (trace w).
Proof.
  intros ((more & later & Sig) & Handled & t & Here & Running & _).
  split; [|apply suspend_deaf, calls_deaf].
  apply (suspend_signalled w s more later t); assumption.
Qed.

(** An awaited call of the heartbeat, at a suspension that is in peace and at
    the one during which the signal arrives. *)
Lemma awaited_call_cancelled (e : Event) (s : signame) (w : World) :
  calls [e] = [e] ->
  armed 0 s w ->
  exists w1,
    bind (call e) (fun _ => suspend) w = (Raise CancelledError, w1)
    /\ calls (trace w1) = calls (trace w) ++ [e].
Proof.
  intros Call A. unfold call, modify. unfold bind. fold (said [e] w).
  apply (armed_said 0 s [e]) in A.
  assert (T : calls (trace (said [e] w)) = calls (trace w) ++ [e])
    by (simpl; rewrite calls_app, Call; reflexivity).
  destruct (suspend_armed_now s _ A) as (R & C). rewrite T in C.
  destruct (suspend (said [e] w)) as [r w1]. simpl fst in R. simpl snd in C.
  subst r. exists w1. split; [reflexivity | exact C].
Qed.

Lemma awaited_call_in_peace (e : Event) (s : signame) (n : nat) (w : World) :
  calls [e] = [e] ->
  armed (S n) s w ->
  exists w1,
    bind (call e) (fun _ => suspend) w = (Ok tt, w1)
    /\ armed n s w1
    /\ calls (trace w1) = calls (trace w) ++ [e].
Proof.
  intros Call A. unfold call, modify. unfold bind. fold (said [e] w).
  apply (armed_said (S n) s [e]) in A.
  assert (T : calls (trace (said [e] w)) = calls (trace w) ++ [e])
    by (simpl; rewrite calls_app, Call; reflexivity).
  destruct (suspend_armed_later n s _ A) as (w1 & Run & A1 & Tr).
  exists w1. rewrite Run. split; [reflexivity|]. split; [exact A1|].
  rewrite Tr. exact T.
Qed.

Lemma pinging_cancelled (slug : string) (s : signame) (fuel : nat) :
  forall n w,
    armed n s w ->
    n < 2 * fuel ->
    fst (PingDatabaseMixin.pinging fuel slug w) = Raise CancelledError
    /\ calls (trace (snd (PingDatabaseMixin.pinging fuel slug w)))
       = calls (trace w)
         ++ firstn (S n)
              (concat (repeat [UpdateGame slug;
                               Sleep PingDatabaseMixin.ping_database_interval] fuel)).
Proof.
  induction fuel as [|fuel IH]; intros n w A Lt; [lia|].
  simpl PingDatabaseMixin.pinging.
  unfold PingDatabaseMixin.ping_database, db.games_update_game, asyncio_sleep.
  destruct n as [|n].
  - destruct (awaited_call_cancelled (UpdateGame slug) s w eq_refl A) as (w1 & Run & C).
    erewrite bind_raise by exact Run.
    split; [reflexivity | exact C].
  - destruct (awaited_call_in_peace (UpdateGame slug) s n w eq_refl A)
      as (w1 & Run & A1 & C1).
    erewrite bind_ok by exact Run.
    destruct n as [|n].
    + destruct (awaited_call_cancelled
                  (Sleep PingDatabaseMixin.ping_database_interval) s w1 eq_refl A1)
        as (w2 & Run2 & C2).
      erewrite bind_raise by exact Run2.
      split; [reflexivity|].
      simpl snd. rewrite C2, C1, <- app_assoc. reflexivity.
    + destruct (awaited_call_in_peace
                  (Sleep PingDatabaseMixin.ping_database_interval) s n w1 eq_refl A1)
        as (w2 & Run2 & A2 & C2).
      erewrite bind_ok by exact Run2.
      destruct (IH n w2 A2 ltac:(lia)) as (R & C).
      split; [exact R|].
      rewrite C, C2, C1, <- !app_assoc. reflexivity.
Qed.

(** X13: the heartbeat does not outlive its cancellation.  When the stop
    signal arrives during the await number [n] of the heartbeat task, counted
    from 0, the task ends there with [CancelledError], which it does not
    catch: it has made the first [n + 1] of its calls, the upsert and then
    pings and sleeps in turn, and makes no call after. *)
Theorem heartbeat_stops_at_cancellation `{Imports} (self : Self) (fuel n : nat)
    (s : signame) (more : list signame) (later : list (list signame))
    (t : Task) (w : World) :
  signals w = repeat [] n ++ (s :: more) :: later ->
  existsb (signame_eqb s) (signal_handlers w) = true ->
  nth_error (tasks w) (current w) = Some t ->
  finished t = false ->
  cancel_requested t = false ->
  n <= 2 * fuel ->
  let name := Server.get_server_name self in
  let out := PingDatabaseMixin._update_database_task self fuel w in
  fst out = Raise CancelledError
  /\ calls (trace (snd out))
     = calls (trace w)
       ++ firstn (S n)
            (heartbeat_calls (slugify name)
               (mkGameFields name (description self) (port self)) fuel).
Proof.
  intros Sig Handled Here Running Calm Le name out. subst out.
  assert (A : armed n s w).
  { split; [exists more, later; exact Sig|]. split; [exact Handled|].
    exists t. auto. }
  unfold PingDatabaseMixin._update_database_task, db.games_create_or_update_game.
  fold name.
  unfold heartbeat_calls.
  destruct n as [|n].
  - destruct (awaited_call_cancelled
                (CreateOrUpdateGame (slugify name)
                   (mkGameFields name (description self) (port self)))
                s w eq_refl A) as (w1 & Run & C).
    erewrite bind_raise by exact Run.
    split; [reflexivity | exact C].
  - destruct (awaited_call_in_peace
                (CreateOrUpdateGame (slugify name)
                   (mkGameFields name (description self) (port self)))
                s n w eq_refl A) as (w1 & Run & A1 & C1).
    erewrite bind_ok by exact Run.
    destruct (pinging_cancelled (slugify name) s fuel n w1 A1 ltac:(lia)) as (R & C).
    split; [exact R|].
    rewrite C, C1, <- app_assoc. reflexivity.
Qed.

Lemma heartbeat_stops_at_cancellation_witness :
  let w := with_signal_handlers (cons SIGTERM)
             (with_signals [[]; []; [SIGTERM]] boot) in
  let out := @PingDatabaseMixin._update_database_task terminal termninja 5 w in
  fst out = Raise CancelledError
  /\ calls (trace (snd out))
     = [CreateOrUpdateGame "termninjaserver" (mkGameFields "TermninjaServer" "" 3000);
        UpdateGame "termninjaserver"; Sleep 120].
Proof.
  exact (@heartbeat_stops_at_cancellation terminal termninja 5 2 SIGTERM [] []
           (mkTask StartServing false false)
           (with_signal_handlers (cons SIGTERM) (with_signals [[]; []; [SIGTERM]] boot))
           eq_refl eq_refl eq_refl eq_refl eq_refl ltac:(lia)).
Defined.

(** ** Starting *)

(** X14: [start] hands over to the reloader only when the auto-reload flag
    is set and the variable TERMNINJA_SERVER_RUNNING is not "true", so a
    process that the reloader has started serves, whatever its flag.  When
    it serves, it serves the object it was called on with the port of the
    command line, and that port is the one the heartbeat registers. *)
Theorem start_reloads_or_serves `{Imports} (cls : Self -> Hook.t) (self : Self)
    (args : Args) (environ : list (string * string)) :
  match start cls self args environ with
  | Watchdog argument =>
      argument = 2%Z
      /\ args_auto_reload args = true
      /\ environ_get "TERMNINJA_SERVER_RUNNING" environ <> Some "true"%string
  | Run self' main =>
      (args_auto_reload args = false
       \/ environ_get "TERMNINJA_SERVER_RUNNING" environ = Some "true"%string)
      /\ main = Server._start_serving (cls self')
      /\ port self' = args_port args
      /\ Server.get_server_name self' = Server.get_server_name self
      /\ player_count self' = player_count self
      /\ class_name self' = class_name self
      /\ HOST self' = HOST self
      /\ welcome_message self' = welcome_message self
      /\ continuation_message self' = continuation_message self
      /\ description self' = description self
      /\ friendly_name self' = friendly_name self
      /\ friendly_name_method self' = friendly_name_method self
      /\ forall w fuel,
           quiet w = true ->
           PingDatabaseMixin._update_database_task self' fuel w
           = (OutOfFuel,
              said (heartbeat_calls (slugify (Server.get_server_name self))
                      (mkGameFields (Server.get_server_name self) (description self)
                                    (args_port args)) fuel) w)
  end.
Proof.
  assert (Beat : forall w fuel,
            quiet w = true ->
            PingDatabaseMixin._update_database_task
              (set_port (args_port args) self) fuel w
            = (OutOfFuel,
               said (heartbeat_calls (slugify (Server.get_server_name self))
                       (mkGameFields (Server.get_server_name self) (description self)
                                     (args_port args)) fuel) w)).
  { intros w fuel Q. unfold PingDatabaseMixin._update_database_task.
    erewrite bind_ok by (apply create_or_update_game_quiet; exact Q).
    rewrite pinging_rounds by exact Q.
    rewrite said_said. reflexivity. }
  unfold start.
  destruct (args_auto_reload args); simpl.
  - destruct (environ_get "TERMNINJA_SERVER_RUNNING" environ) as [v|]; simpl.
    + destruct (String.eqb v "true") eqn:Marker; simpl.
      * apply String.eqb_eq in Marker. subst v.
        repeat split; auto.
      * apply String.eqb_neq in Marker.
        repeat split. intros E. injection E as E. contradiction.
    + repeat split. discriminate.
  - repeat split; auto.
Qed.
